(** * QMC5883L MicroPython driver: register access layer and sensor driver

    A shallow embedding of [micropython_qmc5883l/qmc5883l.py].  The driver
    object, the sensor behind the I2C bus and the record of the bus
    transactions are threaded through a state-and-exception monad; the
    busy-wait poll of the magnetic read is a fuelled loop. *)

From Stdlib Require Import ZArith String Ascii QArith Lia Bool List.
Import ListNotations.
Open Scope Z_scope.

(** ** Exceptions of the Python runtime that the driver can raise *)

Inductive exn : Type :=
| RuntimeError (msg : string)
| ValueError (msg : string)
| IndexError
| AttributeError
| ZeroDivisionError
| TypeError
| StructError.

(** ** The sensor behind the bus

    [machine.I2C] is an external collaborator: the driver only calls
    [readfrom_mem address register length] and
    [writeto_mem address register bytes].  A device is any state space with
    these two transactions, and with the effect on it of the time that
    [time.sleep(0.001)] lets pass.  A read hands back exactly the number of
    bytes that was asked for, each of them an octet. *)

Class Device (B : Type) : Type := {
  readfrom_mem : B -> Z -> Z -> nat -> list Z * B;
  writeto_mem : B -> Z -> Z -> list Z -> B;
  elapse : B -> B;
  readfrom_mem_length :
    forall d a r n, length (fst (readfrom_mem d a r n)) = n;
  readfrom_mem_octets :
    forall d a r n, Forall (fun b => 0 <= b < 256) (fst (readfrom_mem d a r n))
}.

(** What the program did to its environment, oldest first. *)
Inductive event : Type :=
| EvRead (address register : Z) (len : nat) (data : list Z)
| EvWrite (address register : Z) (data : list Z)
| EvSleep.

Definition is_write (e : event) : bool :=
  match e with EvWrite _ _ _ => true | _ => false end.

Definition is_read_of (register : Z) (e : event) : bool :=
  match e with EvRead _ r _ _ => r =? register | _ => false end.

(** ** [struct] layouts

    The layout strings of the source are kept as strings and interpreted
    the way [struct] does: an optional byte-order character, then one code
    per field.  Without a byte-order character the layout is native: the
    byte order of the board, and every field aligned to its size. *)

Inductive byteorder : Type := LittleEndian | BigEndian.

Inductive fmt_code : Type := fmt_h | fmt_H | fmt_B.

Record layout : Type := {
  is_native : bool;
  order : byteorder;
  codes : list fmt_code
}.

Definition code_size (c : fmt_code) : nat :=
  match c with fmt_h | fmt_H => 2%nat | fmt_B => 1%nat end.

Definition code_signed (c : fmt_code) : bool :=
  match c with fmt_h => true | fmt_H | fmt_B => false end.

Fixpoint parse_codes (s : string) : option (list fmt_code) :=
  match s with
  | EmptyString => Some []
  | String c rest =>
      match parse_codes rest with
      | None => None
      | Some cs =>
          if Ascii.eqb c "h" then Some (fmt_h :: cs)
          else if Ascii.eqb c "H" then Some (fmt_H :: cs)
          else if Ascii.eqb c "B" then Some (fmt_B :: cs)
          else None
      end
  end.

Definition parse_format (native : byteorder) (s : string) : option layout :=
  match s with
  | String c rest =>
      if Ascii.eqb c "<" then
        option_map (Build_layout false LittleEndian) (parse_codes rest)
      else if Ascii.eqb c ">" then
        option_map (Build_layout false BigEndian) (parse_codes rest)
      else option_map (Build_layout true native) (parse_codes s)
  | EmptyString => Some (Build_layout true native [])
  end.

(** Padding in front of a field of size [k] at offset [off]. *)
Definition padding (nat_align : bool) (off k : nat) : nat :=
  if nat_align then ((k - off mod k) mod k)%nat else 0%nat.

Fixpoint size_from (nat_align : bool) (off : nat) (cs : list fmt_code) : nat :=
  match cs with
  | [] => off
  | c :: cs' =>
      size_from nat_align (off + padding nat_align off (code_size c) + code_size c) cs'
  end.

Definition layout_size (l : layout) : nat := size_from (is_native l) 0 (codes l).

Definition calcsize (native : byteorder) (s : string) : option nat :=
  option_map layout_size (parse_format native s).

(** Little-endian value of a run of octets. *)
Fixpoint le_uint (bs : list Z) : Z :=
  match bs with
  | [] => 0
  | b :: bs' => b + 256 * le_uint bs'
  end.

Definition uint_of (o : byteorder) (bs : list Z) : Z :=
  match o with LittleEndian => le_uint bs | BigEndian => le_uint (rev bs) end.

Definition to_signed (nbytes : nat) (u : Z) : Z :=
  let m := 2 ^ (8 * Z.of_nat nbytes) in
  if u <? m / 2 then u else u - m.

Definition decode_field (o : byteorder) (c : fmt_code) (bs : list Z) : Z :=
  let u := uint_of o bs in
  if code_signed c then to_signed (code_size c) u else u.

Fixpoint unpack_from (nat_align : bool) (o : byteorder) (off : nat)
  (cs : list fmt_code) (bs : list Z) : option (list Z) :=
  match cs with
  | [] => match bs with [] => Some [] | _ => None end
  | c :: cs' =>
      let pad := padding nat_align off (code_size c) in
      let body := skipn pad bs in
      if (length bs <? pad + code_size c)%nat then None
      else
        match unpack_from nat_align o (off + pad + code_size c) cs'
                (skipn (code_size c) body) with
        | None => None
        | Some vs => Some (decode_field o c (firstn (code_size c) body) :: vs)
        end
  end.

Definition unpack (native : byteorder) (s : string) (bs : list Z) : option (list Z) :=
  match parse_format native s with
  | None => None
  | Some l => unpack_from (is_native l) (order l) 0 (codes l) bs
  end.

Fixpoint le_bytes (n : nat) (v : Z) : list Z :=
  match n with
  | O => []
  | S n' => v mod 256 :: le_bytes n' (v / 256)
  end.

Definition bytes_of (o : byteorder) (n : nat) (v : Z) : list Z :=
  match o with LittleEndian => le_bytes n v | BigEndian => rev (le_bytes n v) end.

Definition code_in_range (c : fmt_code) (v : Z) : bool :=
  let m := 2 ^ (8 * Z.of_nat (code_size c)) in
  if code_signed c then (- (m / 2) <=? v) && (v <? m / 2)
  else (0 <=? v) && (v <? m).

Fixpoint pack_from (nat_align : bool) (o : byteorder) (off : nat)
  (cs : list fmt_code) (vs : list Z) : option (list Z) :=
  match cs, vs with
  | [], [] => Some []
  | c :: cs', v :: vs' =>
      let pad := padding nat_align off (code_size c) in
      if code_in_range c v then
        match pack_from nat_align o (off + pad + code_size c) cs' vs' with
        | None => None
        | Some bs =>
            Some (repeat 0 pad ++ bytes_of o (code_size c) (v mod 2 ^ (8 * Z.of_nat (code_size c))) ++ bs)
        end
      else None
  | _, _ => None
  end.

Definition pack (native : byteorder) (s : string) (vs : list Z) : option (list Z) :=
  match parse_format native s with
  | None => None
  | Some l => pack_from (is_native l) (order l) 0 (codes l) vs
  end.

(** ** Python tuples of the source *)

Definition tuple_contains (t : list Z) (v : Z) : bool :=
  existsb (Z.eqb v) t.

(** [t[i]]: a negative index counts from the end, an index outside the
    tuple raises [IndexError]. *)
Definition tuple_getitem {A : Type} (t : list A) (i : Z) : exn + A :=
  let n := Z.of_nat (length t) in
  let j := if i <? 0 then i + n else i in
  if (0 <=? j) && (j <? n) then
    match nth_error t (Z.to_nat j) with
    | Some x => inr x
    | None => inl IndexError
    end
  else inl IndexError.

(** ** A simulated sensor

    A register file that holds what is written to it, with a status
    register whose data-ready bit (bit 2 of register 0x06) comes up after
    [sim_ready_in] further sleeps, and only while the mode bits of
    register 0x09 select continuous measurement.  Multi-byte transactions
    walk consecutive registers. *)

Record sim : Type := {
  sim_regs : list (Z * Z);
  sim_ready_in : nat
}.

Fixpoint sim_lookup (regs : list (Z * Z)) (r : Z) : Z :=
  match regs with
  | [] => 0
  | (r', b) :: regs' => if r' =? r then b else sim_lookup regs' r
  end.

Definition sim_continuous (d : sim) : bool :=
  (sim_lookup (sim_regs d) 9 mod 4 =? 1).

Definition sim_byte (d : sim) (r : Z) : Z :=
  if r =? 6 then
    if sim_continuous d then
      match sim_ready_in d with O => 4 | S _ => 0 end
    else 0
  else sim_lookup (sim_regs d) r mod 256.

Definition sim_read (d : sim) (a r : Z) (n : nat) : list Z * sim :=
  (map (fun i => sim_byte d (r + Z.of_nat i)) (seq 0 n), d).

Fixpoint sim_store (regs : list (Z * Z)) (r : Z) (data : list Z) : list (Z * Z) :=
  match data with
  | [] => regs
  | b :: data' => sim_store ((r, b mod 256) :: regs) (r + 1) data'
  end.

Definition sim_write (d : sim) (a r : Z) (data : list Z) : sim :=
  {| sim_regs := sim_store (sim_regs d) r data; sim_ready_in := sim_ready_in d |}.

Definition sim_elapse (d : sim) : sim :=
  {| sim_regs := sim_regs d; sim_ready_in := pred (sim_ready_in d) |}.

#[export, refine] Instance sim_device : Device sim := {
  readfrom_mem := sim_read;
  writeto_mem := sim_write;
  elapse := sim_elapse
}.
Proof.
  - intros d a r n. unfold sim_read. simpl.
    rewrite length_map. apply length_seq.
  - intros d a r n. unfold sim_read. simpl.
    apply Forall_forall. intros b Hb.
    apply in_map_iff in Hb. destruct Hb as [i [<- _]].
    unfold sim_byte.
    destruct (r + Z.of_nat i =? 6).
    + destruct (sim_continuous d); [destruct (sim_ready_in d) |]; lia.
    + apply Z.mod_pos_bound. lia.
Defined.

(** ** The driver object, its environment and the monad of its methods *)

Section Driver.

Context {B : Type} {dev : Device B}.

(** Byte order of the board, used by layouts without a byte-order
    character. *)
Variable native : byteorder.

(** One effect of a method, in the order of the statements that make it:
    an assignment to [self.resolution], or something done to the
    environment. *)
Inductive step : Type :=
| StepResolution (r : Z)
| StepEvent (e : event).

(** The instance attributes of the source ([_i2c], [_address],
    [resolution]); [resolution] is absent until the field-range setter has
    run.  [_i2c] holds the sensor state reached through the bus handle,
    [trace] records the transactions issued so far, and [history] the
    transactions and the assignments to [resolution] in the order in which
    the statements of the source made them. *)
Record QMC5883L : Type := {
  _i2c : B;
  _address : Z;
  resolution : option Z;
  trace : list event;
  history : list step
}.

(** A method body: it ends in a value or in a raised exception, and the
    mutations made before a [raise] stay. *)
Definition M (A : Type) : Type := QMC5883L -> (exn + A) * QMC5883L.

Definition ret {A : Type} (a : A) : M A := fun s => (inr a, s).

Definition raise {A : Type} (e : exn) : M A := fun s => (inl e, s).

Definition bind {A C : Type} (m : M A) (k : A -> M C) : M C :=
  fun s =>
    match m s with
    | (inl e, s') => (inl e, s')
    | (inr a, s') => k a s'
    end.

Notation "x <- m ;; k" := (bind m (fun x => k))
  (at level 61, m at next level, right associativity).
Notation "m ;;; k" := (bind m (fun _ => k))
  (at level 61, right associativity).

Definition lift {A : Type} (r : exn + A) : M A := fun s => (r, s).

Definition i2c_readfrom_mem (register : Z) (n : nat) : M (list Z) :=
  fun s =>
    let (data, d') := readfrom_mem (_i2c s) (_address s) register n in
    (inr data,
     {| _i2c := d'; _address := _address s; resolution := resolution s;
        trace := trace s ++ [EvRead (_address s) register n data];
        history :=
          history s ++ [StepEvent (EvRead (_address s) register n data)] |}).

Definition i2c_writeto_mem (register : Z) (data : list Z) : M unit :=
  fun s =>
    (inr tt,
     {| _i2c := writeto_mem (_i2c s) (_address s) register data;
        _address := _address s; resolution := resolution s;
        trace := trace s ++ [EvWrite (_address s) register data];
        history :=
          history s ++ [StepEvent (EvWrite (_address s) register data)] |}).

Definition time_sleep : M unit :=
  fun s =>
    (inr tt,
     {| _i2c := elapse (_i2c s); _address := _address s;
        resolution := resolution s; trace := trace s ++ [EvSleep];
        history := history s ++ [StepEvent EvSleep] |}).

Definition set_resolution (r : Z) : M unit :=
  fun s =>
    (inr tt,
     {| _i2c := _i2c s; _address := _address s; resolution := Some r;
        trace := trace s; history := history s ++ [StepResolution r] |}).

Definition get_resolution : M Z :=
  fun s =>
    match resolution s with
    | Some r => (inr r, s)
    | None => (inl AttributeError, s)
    end.

(** ** Register accessor primitives ([i2c_helpers]) *)

(** Modelled from the spec: the bit-field descriptor of
    [micropython_qmc5883l/i2c_helpers.py], which is not among the sources.
    The source constructs it as [CBits(width, register, offset)]. *)
Record CBits : Type := {
  num_bits : Z;
  register_address : Z;
  start_bit : Z
}.

(** Modelled from the spec: the mask of the target bits,
    [width] ones shifted to [offset]. *)
Definition bit_mask (c : CBits) : Z :=
  Z.shiftl (Z.shiftl 1 (num_bits c) - 1) (start_bit c).

(** Modelled from the spec: get reads one byte, shifts and masks to
    extract the field. *)
Definition CBits_decode (c : CBits) (byte : Z) : Z :=
  Z.land (Z.shiftr byte (start_bit c)) (Z.shiftl 1 (num_bits c) - 1).

(** Modelled from the spec: set clears the target bits of the current byte
    via the mask and ORs in the new value shifted into place. *)
Definition CBits_encode (c : CBits) (byte value : Z) : Z :=
  Z.lor (Z.land byte (Z.lnot (bit_mask c))) (Z.shiftl value (start_bit c)).

(** Modelled from the spec: one read transaction of one byte. *)
Definition CBits_get (c : CBits) : M Z :=
  data <- i2c_readfrom_mem (register_address c) 1 ;;
  ret (CBits_decode c (hd 0 data)).

(** Modelled from the spec: one read transaction followed by one write
    transaction of the merged byte. *)
Definition CBits_set (c : CBits) (value : Z) : M unit :=
  data <- i2c_readfrom_mem (register_address c) 1 ;;
  i2c_writeto_mem (register_address c) [CBits_encode c (hd 0 data) value].

(** Modelled from the spec: the multi-byte register descriptor of
    [i2c_helpers.py], constructed in the source as
    [RegisterStruct(register, layout)]. *)
Record RegisterStruct : Type := {
  rs_register : Z;
  format : string
}.

(** Modelled from the spec: what a multi-byte register reads as.  The
    source compares [_device_id] with an integer and unpacks [_measures]
    into five names, so a layout of one field reads as the field itself and
    any other as the tuple of its fields. *)
Inductive value : Type :=
| VInt (v : Z)
| VTuple (vs : list Z).

(** Modelled from the spec: the multi-byte accessor of [i2c_helpers.py].
    Get issues a read transaction of the declared total byte length and
    unpacks according to the layout. *)
Definition RegisterStruct_get (r : RegisterStruct) : M value :=
  match calcsize native (format r) with
  | None => raise StructError
  | Some n =>
      data <- i2c_readfrom_mem (rs_register r) n ;;
      match unpack native (format r) data with
      | None => raise StructError
      | Some [v] => ret (VInt v)
      | Some vs => ret (VTuple vs)
      end
  end.

(** Modelled from the spec: set packs a value per the layout and issues a
    write transaction. *)
Definition RegisterStruct_set (r : RegisterStruct) (v : Z) : M unit :=
  match pack native (format r) [v] with
  | None => raise StructError
  | Some bytes => i2c_writeto_mem (rs_register r) bytes
  end.

(** ** Constants of [qmc5883l.py] *)

Definition _REG_WHOAMI : Z := 0x0D.
Definition _REG_SET_RESET : Z := 0x0B.
Definition _REG_OPERATION_MODE : Z := 0x09.
Definition _REG_STATUS : Z := 0x06.

Definition OVERSAMPLE_64 : Z := 3.
Definition OVERSAMPLE_128 : Z := 2.
Definition OVERSAMPLE_256 : Z := 1.
Definition OVERSAMPLE_512 : Z := 0.
Definition oversample_values : list Z :=
  [OVERSAMPLE_64; OVERSAMPLE_128; OVERSAMPLE_256; OVERSAMPLE_512].

Definition FIELDRANGE_2G : Z := 0.
Definition FIELDRANGE_8G : Z := 1.
Definition field_range_values : list Z := [FIELDRANGE_2G; FIELDRANGE_8G].

Definition OUTPUT_DATA_RATE_10 : Z := 0.
Definition OUTPUT_DATA_RATE_50 : Z := 1.
Definition OUTPUT_DATA_RATE_100 : Z := 2.
Definition OUTPUT_DATA_RATE_200 : Z := 3.
Definition data_rate_values : list Z :=
  [OUTPUT_DATA_RATE_10; OUTPUT_DATA_RATE_50; OUTPUT_DATA_RATE_100;
   OUTPUT_DATA_RATE_200].

Definition MODE_STANDBY : Z := 0.
Definition MODE_CONTINUOUS : Z := 1.
Definition mode_values : list Z := [MODE_STANDBY; MODE_CONTINUOUS].

Definition RESET_VALUE : Z := 1.

(** ** Class attributes of [QMC5883L] *)

Definition _device_id : RegisterStruct :=
  {| rs_register := _REG_WHOAMI; format := "H" |}.
Definition _reset : RegisterStruct :=
  {| rs_register := _REG_SET_RESET; format := "H" |}.
Definition _conf_reg : RegisterStruct :=
  {| rs_register := _REG_OPERATION_MODE; format := "H" |}.
Definition _oversample : CBits :=
  {| num_bits := 2; register_address := _REG_OPERATION_MODE; start_bit := 6 |}.
Definition _field_range : CBits :=
  {| num_bits := 2; register_address := _REG_OPERATION_MODE; start_bit := 4 |}.
Definition _output_data_rate : CBits :=
  {| num_bits := 2; register_address := _REG_OPERATION_MODE; start_bit := 2 |}.
Definition _mode_control : CBits :=
  {| num_bits := 2; register_address := _REG_OPERATION_MODE; start_bit := 0 |}.
Definition _data_ready_register : CBits :=
  {| num_bits := 1; register_address := _REG_STATUS; start_bit := 2 |}.
Definition _measures : RegisterStruct :=
  {| rs_register := 0x00; format := "<hhhBh" |}.

(** ** Properties of [QMC5883L] *)

Definition oversamples : list string :=
  ["OVERSAMPLE_512"; "OVERSAMPLE_256"; "OVERSAMPLE_128"; "OVERSAMPLE_64"]%string.

Definition oversample_get : M string :=
  i <- CBits_get _oversample ;;
  lift (tuple_getitem oversamples i).

Definition oversample_set (v : Z) : M unit :=
  if negb (tuple_contains oversample_values v)
  then raise (ValueError "Value must be a valid oversample setting")
  else CBits_set _oversample v.

Definition ranges : list string := ["FIELDRANGE_2G"; "FIELDRANGE_8G"]%string.

Definition field_range_get : M string :=
  i <- CBits_get _field_range ;;
  lift (tuple_getitem ranges i).

Definition field_range_set (v : Z) : M unit :=
  if negb (tuple_contains field_range_values v)
  then raise (ValueError "Value must be a valid field range setting")
  else
    (if v =? 1 then set_resolution 3000 else set_resolution 12000) ;;;
    CBits_set _field_range v.

Definition rates : list string :=
  ["OUTPUT_DATA_RATE_10"; "OUTPUT_DATA_RATE_50"; "OUTPUT_DATA_RATE_100";
   "OUTPUT_DATA_RATE_200"]%string.

Definition output_data_rate_get : M string :=
  i <- CBits_get _output_data_rate ;;
  lift (tuple_getitem rates i).

Definition output_data_rate_set (v : Z) : M unit :=
  if negb (tuple_contains data_rate_values v)
  then raise (ValueError "Value must be a valid data rate setting")
  else CBits_set _output_data_rate v.

Definition modes : list string := ["MODE_STANDBY"; "MODE_CONTINUOUS"]%string.

Definition mode_control_get : M string :=
  i <- CBits_get _mode_control ;;
  lift (tuple_getitem modes i).

Definition mode_control_set (v : Z) : M unit :=
  if negb (tuple_contains mode_values v)
  then raise (ValueError "Value must be a valid mode setting")
  else CBits_set _mode_control v.

(** [value != 0xFF]: an integer differs from 255 when it is another
    integer, a tuple always does. *)
Definition ne_0xFF (v : value) : bool :=
  match v with
  | VInt z => negb (z =? 0xFF)
  | VTuple _ => true
  end.

(** The body of [__init__], run on the object whose [_i2c] and [_address]
    have just been assigned. *)
Definition init_body : M unit :=
  id <- RegisterStruct_get _device_id ;;
  if ne_0xFF id then raise (RuntimeError "Failed to find the QMC5883L!")
  else
    RegisterStruct_set _reset 0x01 ;;;
    oversample_set OVERSAMPLE_128 ;;;
    field_range_set FIELDRANGE_2G ;;;
    output_data_rate_set OUTPUT_DATA_RATE_200 ;;;
    mode_control_set MODE_CONTINUOUS.

Definition __init__ (i2c : B) (address : Z) : (exn + unit) * QMC5883L :=
  init_body
    {| _i2c := i2c; _address := address; resolution := None; trace := [];
       history := [] |}.

(** [x / self.resolution]: true division of two integers.  The float that
    Python returns is the one nearest to the exact quotient; the quotient
    itself is kept here, as a reduced fraction. *)
Definition truediv (x r : Z) : exn + Q :=
  if r =? 0 then inl ZeroDivisionError
  else inr (Qred (Qdiv (inject_Z x) (inject_Z r))).

Definition scaled (x : Z) : M Q :=
  r <- get_resolution ;;
  lift (truediv x r).

(** [x, y, z, _, _ = self._measures] *)
Definition unpack5 (v : value) : exn + (Z * Z * Z) :=
  match v with
  | VTuple [x; y; z; _; _] => inr (x, y, z)
  | VTuple _ => inl (ValueError "unpack")
  | VInt _ => inl TypeError
  end.

(** The loop [while self._data_ready_register != 1: time.sleep(0.001)];
    [fuel] bounds the number of times the condition is evaluated, and
    [None] is a loop still running when the fuel is spent. *)
Fixpoint wait_data_ready (fuel : nat) (s : QMC5883L)
  : option ((exn + unit) * QMC5883L) :=
  match fuel with
  | O => None
  | S fuel' =>
      match CBits_get _data_ready_register s with
      | (inl e, s') => Some (inl e, s')
      | (inr ready, s') =>
          if negb (ready =? 1)
          then wait_data_ready fuel' (snd (time_sleep s'))
          else Some (inr tt, s')
      end
  end.

Definition read_measures : M (Q * Q * Q) :=
  m <- RegisterStruct_get _measures ;;
  xyz <- lift (unpack5 m) ;;
  let '(x, y, z) := xyz in
  mx <- scaled x ;;
  my <- scaled y ;;
  mz <- scaled z ;;
  ret (mx, my, mz).

Definition magnetic (fuel : nat) (s : QMC5883L)
  : option ((exn + (Q * Q * Q)) * QMC5883L) :=
  match wait_data_ready fuel s with
  | None => None
  | Some (inl e, s') => Some (inl e, s')
  | Some (inr _, s') => Some (read_measures s')
  end.

(** ** The four settings, side by side *)

Inductive setting : Type := Oversample | FieldRange | DataRate | Mode.

Definition cbits_of (k : setting) : CBits :=
  match k with
  | Oversample => _oversample
  | FieldRange => _field_range
  | DataRate => _output_data_rate
  | Mode => _mode_control
  end.

Definition legal_values (k : setting) : list Z :=
  match k with
  | Oversample => oversample_values
  | FieldRange => field_range_values
  | DataRate => data_rate_values
  | Mode => mode_values
  end.

Definition setter (k : setting) : Z -> M unit :=
  match k with
  | Oversample => oversample_set
  | FieldRange => field_range_set
  | DataRate => output_data_rate_set
  | Mode => mode_control_set
  end.

Definition getter (k : setting) : M string :=
  match k with
  | Oversample => oversample_get
  | FieldRange => field_range_get
  | DataRate => output_data_rate_get
  | Mode => mode_control_get
  end.

Definition setting_eqb (k k' : setting) : bool :=
  match k, k' with
  | Oversample, Oversample | FieldRange, FieldRange
  | DataRate, DataRate | Mode, Mode => true
  | _, _ => false
  end.

(** The enumeration tables as the specification lists them: raw code and
    the named value it stands for. *)
Definition spec_table (k : setting) : list (Z * string) :=
  match k with
  | Oversample =>
      [(3, "OVERSAMPLE_64"); (2, "OVERSAMPLE_128");
       (1, "OVERSAMPLE_256"); (0, "OVERSAMPLE_512")]
  | FieldRange => [(0, "FIELDRANGE_2G"); (1, "FIELDRANGE_8G")]
  | DataRate =>
      [(0, "OUTPUT_DATA_RATE_10"); (1, "OUTPUT_DATA_RATE_50");
       (2, "OUTPUT_DATA_RATE_100"); (3, "OUTPUT_DATA_RATE_200")]
  | Mode => [(0, "MODE_STANDBY"); (1, "MODE_CONTINUOUS")]
  end%string.

Fixpoint spec_name_in (t : list (Z * string)) (code : Z) : option string :=
  match t with
  | [] => None
  | (c, n) :: t' => if c =? code then Some n else spec_name_in t' code
  end.

Definition spec_name (k : setting) (code : Z) : option string :=
  spec_name_in (spec_table k) code.

(** The resolution the specification pairs with a field-range code. *)
Definition spec_resolution (code : Z) : Z :=
  if code =? 1 then 3000 else 12000.

(** A register that reads back the octet last written to it. *)
Definition register_holds (r : Z) : Prop :=
  forall (d : B) (a b : Z),
    0 <= b < 256 -> fst (readfrom_mem (writeto_mem d a r [b]) a r 1) = [b].

(** ** Sequences of public operations *)

Inductive op : Type :=
| OpSet (k : setting) (v : Z)
| OpGet (k : setting)
| OpMagnetic (fuel : nat).

(** One operation that returns normally; [None] when it raises or does not
    return within its fuel. *)
Definition run_op (o : op) (s : QMC5883L) : option QMC5883L :=
  match o with
  | OpSet k v =>
      match setter k v s with (inr _, s') => Some s' | (inl _, _) => None end
  | OpGet k =>
      match getter k s with (inr _, s') => Some s' | (inl _, _) => None end
  | OpMagnetic fuel =>
      match magnetic fuel s with
      | Some (inr _, s') => Some s'
      | _ => None
      end
  end.

Fixpoint run_ops (ops : list op) (s : QMC5883L) : option QMC5883L :=
  match ops with
  | [] => Some s
  | o :: ops' =>
      match run_op o s with
      | None => None
      | Some s' => run_ops ops' s'
      end
  end.

(** The field-range code written last, [current] when none is written. *)
Fixpoint last_field_range (current : Z) (ops : list op) : Z :=
  match ops with
  | [] => current
  | OpSet FieldRange v :: ops' => last_field_range v ops'
  | _ :: ops' => last_field_range current ops'
  end.

(** ** Observations on traces and on the poll *)

Definition status_ready (data : list Z) : bool :=
  CBits_decode _data_ready_register (hd 0 data) =? 1.

(** A step of the wait: a sleep, or a status read that found the sensor
    not ready. *)
Definition is_idle_poll (e : event) : bool :=
  match e with
  | EvSleep => true
  | EvRead _ r n data => (r =? _REG_STATUS) && (n =? 1)%nat && negb (status_ready data)
  | EvWrite _ _ _ => false
  end.

Definition is_status_read (e : event) : bool := is_read_of _REG_STATUS e.

Definition is_measure_read (e : event) : bool := is_read_of 0x00 e.

Definition count_events (p : event -> bool) (t : list event) : nat :=
  length (filter p t).

(** What the next evaluation of the loop condition finds. *)
Definition is_ready (s : QMC5883L) : bool :=
  match fst (CBits_get _data_ready_register s) with
  | inr r => r =? 1
  | inl _ => false
  end.

(** The object after one unsuccessful poll and the sleep that follows. *)
Definition poll_once (s : QMC5883L) : QMC5883L :=
  snd (time_sleep (snd (CBits_get _data_ready_register s))).

Fixpoint after_polls (n : nat) (s : QMC5883L) : QMC5883L :=
  match n with
  | O => s
  | S n' => after_polls n' (poll_once s)
  end.

(** The three axes of a measurement block, as the layout of [_measures]
    decodes them. *)
Definition axes_of (data : list Z) : option (Z * Z * Z) :=
  match unpack native (format _measures) data with
  | Some [x; y; z; _; _] => Some (x, y, z)
  | _ => None
  end.

(** ** The object after a transaction *)

Definition read_data (r : Z) (n : nat) (s : QMC5883L) : list Z :=
  fst (readfrom_mem (_i2c s) (_address s) r n).

Definition after_read (r : Z) (n : nat) (s : QMC5883L) : QMC5883L :=
  snd (i2c_readfrom_mem r n s).

Definition after_write (r : Z) (data : list Z) (s : QMC5883L) : QMC5883L :=
  snd (i2c_writeto_mem r data s).

Definition read_byte (r : Z) (s : QMC5883L) : Z := hd 0 (read_data r 1 s).

(** The object on which a setter starts its bit-field write. *)
Definition prepared (k : setting) (v : Z) (s : QMC5883L) : QMC5883L :=
  match k with
  | FieldRange =>
      snd ((if v =? 1 then set_resolution 3000 else set_resolution 12000) s)
  | _ => s
  end.

(** The object [__init__] starts from, and the object on which it applies
    the default settings: identity read and reset written. *)
Definition fresh (i2c : B) (address : Z) : QMC5883L :=
  {| _i2c := i2c; _address := address; resolution := None; trace := [];
     history := [] |}.

Definition identity_of (i2c : B) (address : Z) : Z :=
  uint_of native (read_data _REG_WHOAMI 2 (fresh i2c address)).

Definition reset_done (i2c : B) (address : Z) : QMC5883L :=
  after_write _REG_SET_RESET (bytes_of native 2 0x01)
    (after_read _REG_WHOAMI 2 (fresh i2c address)).

Definition apply_defaults : M unit :=
  oversample_set OVERSAMPLE_128 ;;;
  field_range_set FIELDRANGE_2G ;;;
  output_data_rate_set OUTPUT_DATA_RATE_200 ;;;
  mode_control_set MODE_CONTINUOUS.

(** The sensor is first found ready at the poll after [n] unsuccessful
    ones, or at no poll at all. *)
Definition first_ready_at (n : nat) (s : QMC5883L) : Prop :=
  (forall j, (j < n)%nat -> is_ready (after_polls j s) = false) /\
  is_ready (after_polls n s) = true.

Definition never_ready (s : QMC5883L) : Prop :=
  forall j, is_ready (after_polls j s) = false.

(** The events of [n] unsuccessful polls. *)
Fixpoint idle_events (n : nat) (s : QMC5883L) : list event :=
  match n with
  | O => []
  | S n' =>
      EvRead (_address s) _REG_STATUS 1 [read_byte _REG_STATUS s] :: EvSleep
      :: idle_events n' (poll_once s)
  end.

(** The exact quotient that [truediv] returns for a divisor other than
    zero. *)
Definition quotient (x r : Z) : Q := Qred (Qdiv (inject_Z x) (inject_Z r)).

(** A monitor over traces: every read of the measurement block happens
    while the status read before it found the sensor ready. *)
Fixpoint ready_guarded (ready : bool) (t : list event) : bool :=
  match t with
  | [] => true
  | EvRead _ r _ data :: t' =>
      if r =? _REG_STATUS then ready_guarded (status_ready data) t'
      else if r =? 0x00 then ready && ready_guarded ready t'
      else ready_guarded ready t'
  | _ :: t' => ready_guarded ready t'
  end.

(** The events that a run added to the trace it started from. *)
Definition added (before after : list event) : list event :=
  skipn (length before) after.

(** A read of [len] bytes that starts at the measurement block. *)
Definition is_block_read (len : nat) (e : event) : bool :=
  match e with
  | EvRead _ r n _ => (r =? 0x00) && (n =? len)%nat
  | _ => false
  end.

(** The name tuple a getter indexes. *)
Definition names_of (k : setting) : list string :=
  match k with
  | Oversample => oversamples
  | FieldRange => ranges
  | DataRate => rates
  | Mode => modes
  end.

(** A bit field that lies within the octet of its register. *)
Definition fits_octet (c : CBits) : Prop :=
  0 <= num_bits c /\ 0 <= start_bit c /\ start_bit c + num_bits c <= 8.

(** ** Further observations on traces *)

Definition is_sleep (e : event) : bool :=
  match e with EvSleep => true | _ => false end.

Definition is_octet (b : Z) : bool := (0 <=? b) && (b <? 256).

(** What a constructed driver is seen to do on the bus: one-byte reads of
    the operation-mode and status registers, nine-byte reads of the
    measurement block, one-octet writes of the operation-mode register,
    all at its own address. *)
Definition bus_discipline (address : Z) (e : event) : bool :=
  match e with
  | EvRead a r n _ =>
      (a =? address) &&
      (((r =? _REG_OPERATION_MODE) && (n =? 1)%nat)
       || ((r =? _REG_STATUS) && (n =? 1)%nat)
       || ((r =? 0x00) && (n =? 9)%nat))
  | EvWrite a r data =>
      (a =? address) && (r =? _REG_OPERATION_MODE)
      && (length data =? 1)%nat && forallb is_octet data
  | EvSleep => true
  end.

(** The object after the default settings of [__init__]. *)
Definition defaults_applied (s : QMC5883L) : QMC5883L :=
  snd (setter Mode MODE_CONTINUOUS
         (snd (setter DataRate OUTPUT_DATA_RATE_200
                 (snd (setter FieldRange FIELDRANGE_2G
                         (snd (setter Oversample OVERSAMPLE_128 s))))))).

(** ** Bit fields *)

Lemma field_mask_ones (n : Z) : Z.shiftl 1 n - 1 = Z.ones n.
Proof. unfold Z.ones. lia. Qed.

Lemma testbit_beyond_width (v w i : Z) :
  0 <= w -> 0 <= v < 2 ^ w -> w <= i -> Z.testbit v i = false.
Proof.
  intros Hw Hv Hi.
  rewrite <- (Z.mod_small v (2 ^ w)) by exact Hv.
  apply Z.mod_pow2_bits_high. lia.
Qed.

Lemma testbit_ones_window (w j : Z) :
  0 <= w -> Z.testbit (Z.ones w) j = (0 <=? j) && (j <? w).
Proof.
  intros Hw.
  destruct (Z.leb_spec 0 j) as [H0 | H0]; simpl.
  - destruct (Z.ltb_spec j w) as [H1 | H1].
    + apply Z.ones_spec_low. lia.
    + apply Z.ones_spec_high. lia.
  - apply Z.testbit_neg_r. lia.
Qed.

Lemma testbit_value_window (v w j : Z) :
  0 <= w -> 0 <= v < 2 ^ w -> (j <? 0) || (w <=? j) = true ->
  Z.testbit v j = false.
Proof.
  intros Hw Hv Hj.
  apply orb_true_iff in Hj. destruct Hj as [Hj | Hj].
  - apply Z.testbit_neg_r. lia.
  - apply testbit_beyond_width with (w := w); lia.
Qed.

Lemma testbit_encode (c : CBits) (b v m : Z) :
  0 <= num_bits c -> 0 <= start_bit c -> 0 <= m ->
  Z.testbit (CBits_encode c b v) m =
  (Z.testbit b m && negb ((0 <=? m - start_bit c) && (m - start_bit c <? num_bits c)))
  || Z.testbit v (m - start_bit c).
Proof.
  intros Hw Ho Hm. unfold CBits_encode, bit_mask.
  rewrite field_mask_ones.
  rewrite Z.lor_spec, Z.land_spec, Z.lnot_spec by exact Hm.
  rewrite !Z.shiftl_spec by exact Hm.
  rewrite testbit_ones_window by exact Hw.
  reflexivity.
Qed.

Lemma testbit_decode (c : CBits) (b i : Z) :
  0 <= num_bits c -> 0 <= start_bit c -> 0 <= i ->
  Z.testbit (CBits_decode c b) i =
  Z.testbit b (i + start_bit c) && (i <? num_bits c).
Proof.
  intros Hw Ho Hi. unfold CBits_decode.
  rewrite field_mask_ones, Z.land_spec, Z.shiftr_spec by exact Hi.
  rewrite testbit_ones_window by exact Hw.
  destruct (Z.leb_spec 0 i); [reflexivity | lia].
Qed.

Lemma CBits_decode_encode_same (c : CBits) (b v : Z) :
  0 <= num_bits c -> 0 <= start_bit c -> 0 <= v < 2 ^ num_bits c ->
  CBits_decode c (CBits_encode c b v) = v.
Proof.
  intros Hw Ho Hv. apply Z.bits_inj'. intros i Hi.
  rewrite testbit_decode, testbit_encode by lia.
  replace (i + start_bit c - start_bit c) with i by lia.
  destruct (Z.ltb_spec i (num_bits c)) as [Hlt | Hge].
  - destruct (Z.leb_spec 0 i); [| lia].
    simpl. rewrite andb_false_r, andb_true_r. reflexivity.
  - rewrite (testbit_beyond_width v (num_bits c) i) by lia.
    rewrite andb_false_r. reflexivity.
Qed.

Lemma CBits_decode_encode_other (c c' : CBits) (b v : Z) :
  0 <= num_bits c -> 0 <= start_bit c ->
  0 <= num_bits c' -> 0 <= start_bit c' ->
  0 <= v < 2 ^ num_bits c ->
  start_bit c' + num_bits c' <= start_bit c \/
  start_bit c + num_bits c <= start_bit c' ->
  CBits_decode c' (CBits_encode c b v) = CBits_decode c' b.
Proof.
  intros Hw Ho Hw' Ho' Hv Hdis. apply Z.bits_inj'. intros i Hi.
  rewrite !testbit_decode by lia.
  destruct (Z.ltb_spec i (num_bits c')) as [Hlt | Hge].
  - rewrite testbit_encode by lia.
    rewrite (testbit_value_window v (num_bits c)) by lia.
    replace ((0 <=? i + start_bit c' - start_bit c)
             && (i + start_bit c' - start_bit c <? num_bits c)) with false by lia.
    simpl. rewrite orb_false_r, andb_true_r. reflexivity.
  - rewrite !andb_false_r. reflexivity.
Qed.

Lemma CBits_decode_range (c : CBits) (b : Z) :
  0 <= num_bits c -> 0 <= CBits_decode c b < 2 ^ num_bits c.
Proof.
  intros Hw. unfold CBits_decode. rewrite field_mask_ones, Z.land_ones by exact Hw.
  apply Z.mod_pos_bound. apply Z.pow_pos_nonneg; lia.
Qed.

Lemma CBits_encode_octet (c : CBits) (b v : Z) :
  0 <= num_bits c -> 0 <= start_bit c -> start_bit c + num_bits c <= 8 ->
  0 <= b < 256 -> 0 <= v < 2 ^ num_bits c ->
  0 <= CBits_encode c b v < 256.
Proof.
  intros Hw Ho Hfit Hb Hv.
  assert (Hnn : 0 <= CBits_encode c b v).
  { unfold CBits_encode. apply Z.lor_nonneg. split.
    - apply Z.land_nonneg. left. lia.
    - apply Z.shiftl_nonneg. lia. }
  split; [exact Hnn |].
  change 256 with (2 ^ 8).
  destruct (Z.eq_dec (CBits_encode c b v) 0) as [-> | Hnz]; [lia |].
  apply Z.log2_lt_pow2; [lia |].
  destruct (Z.lt_ge_cases (Z.log2 (CBits_encode c b v)) 8) as [Hlt | Hge];
    [exact Hlt | exfalso].
  assert (Hbit : Z.testbit (CBits_encode c b v) (Z.log2 (CBits_encode c b v)) = true)
    by (apply Z.bit_log2; lia).
  rewrite testbit_encode in Hbit by lia.
  rewrite (testbit_beyond_width b 8) in Hbit by (change (2 ^ 8) with 256; lia).
  rewrite (testbit_beyond_width v (num_bits c)) in Hbit by lia.
  discriminate Hbit.
Qed.

(** ** Running the primitives *)

Lemma bind_ok {A C : Type} (m : M A) (k : A -> M C) (s s' : QMC5883L) (a : A) :
  m s = (inr a, s') -> bind m k s = k a s'.
Proof. intros H. unfold bind. rewrite H. reflexivity. Qed.

Lemma bind_raise {A C : Type} (m : M A) (k : A -> M C) (s s' : QMC5883L) (e : exn) :
  m s = (inl e, s') -> bind m k s = (inl e, s').
Proof. intros H. unfold bind. rewrite H. reflexivity. Qed.

Lemma i2c_readfrom_mem_run (r : Z) (n : nat) (s : QMC5883L) :
  i2c_readfrom_mem r n s = (inr (read_data r n s), after_read r n s).
Proof.
  unfold after_read, read_data, i2c_readfrom_mem.
  destruct (readfrom_mem (_i2c s) (_address s) r n); reflexivity.
Qed.

Lemma i2c_writeto_mem_run (r : Z) (data : list Z) (s : QMC5883L) :
  i2c_writeto_mem r data s = (inr tt, after_write r data s).
Proof. reflexivity. Qed.

Lemma after_read_trace (r : Z) (n : nat) (s : QMC5883L) :
  trace (after_read r n s) = trace s ++ [EvRead (_address s) r n (read_data r n s)].
Proof.
  unfold after_read, read_data, i2c_readfrom_mem.
  destruct (readfrom_mem (_i2c s) (_address s) r n); reflexivity.
Qed.

Lemma after_read_resolution (r : Z) (n : nat) (s : QMC5883L) :
  resolution (after_read r n s) = resolution s.
Proof.
  unfold after_read, i2c_readfrom_mem.
  destruct (readfrom_mem (_i2c s) (_address s) r n); reflexivity.
Qed.

Lemma after_read_address (r : Z) (n : nat) (s : QMC5883L) :
  _address (after_read r n s) = _address s.
Proof.
  unfold after_read, i2c_readfrom_mem.
  destruct (readfrom_mem (_i2c s) (_address s) r n); reflexivity.
Qed.

Lemma after_read_i2c (r : Z) (n : nat) (s : QMC5883L) :
  _i2c (after_read r n s) = snd (readfrom_mem (_i2c s) (_address s) r n).
Proof.
  unfold after_read, i2c_readfrom_mem.
  destruct (readfrom_mem (_i2c s) (_address s) r n); reflexivity.
Qed.

Lemma read_data_length (r : Z) (n : nat) (s : QMC5883L) :
  length (read_data r n s) = n.
Proof. apply readfrom_mem_length. Qed.

Lemma read_data_one (r : Z) (s : QMC5883L) :
  read_data r 1 s = [read_byte r s].
Proof.
  unfold read_byte. pose proof (read_data_length r 1 s) as H.
  destruct (read_data r 1 s) as [| b [| b' l]]; simpl in H; try discriminate.
  reflexivity.
Qed.

Lemma read_byte_octet (r : Z) (s : QMC5883L) : 0 <= read_byte r s < 256.
Proof.
  pose proof (readfrom_mem_octets (_i2c s) (_address s) r 1) as H.
  fold (read_data r 1 s) in H. rewrite read_data_one in H.
  inversion H; assumption.
Qed.

Lemma CBits_get_run (c : CBits) (s : QMC5883L) :
  CBits_get c s =
  (inr (CBits_decode c (read_byte (register_address c) s)),
   after_read (register_address c) 1 s).
Proof.
  unfold CBits_get.
  rewrite (bind_ok _ _ _ _ _ (i2c_readfrom_mem_run _ _ _)).
  reflexivity.
Qed.

Lemma CBits_set_run (c : CBits) (v : Z) (s : QMC5883L) :
  CBits_set c v s =
  (inr tt,
   after_write (register_address c)
     [CBits_encode c (read_byte (register_address c) s) v]
     (after_read (register_address c) 1 s)).
Proof.
  unfold CBits_set.
  rewrite (bind_ok _ _ _ _ _ (i2c_readfrom_mem_run _ _ _)).
  reflexivity.
Qed.

Lemma CBits_set_trace (c : CBits) (v : Z) (s : QMC5883L) :
  trace (snd (CBits_set c v s)) =
  trace s ++
  [EvRead (_address s) (register_address c) 1 [read_byte (register_address c) s];
   EvWrite (_address s) (register_address c)
     [CBits_encode c (read_byte (register_address c) s) v]].
Proof.
  rewrite CBits_set_run. simpl.
  rewrite after_read_trace, after_read_address, read_data_one, <- app_assoc.
  reflexivity.
Qed.

Lemma CBits_set_resolution (c : CBits) (v : Z) (s : QMC5883L) :
  resolution (snd (CBits_set c v s)) = resolution s.
Proof. rewrite CBits_set_run. simpl. apply after_read_resolution. Qed.

Lemma CBits_set_address (c : CBits) (v : Z) (s : QMC5883L) :
  _address (snd (CBits_set c v s)) = _address s.
Proof. rewrite CBits_set_run. simpl. apply after_read_address. Qed.

(** On a register that holds what is written, the byte found after a set
    is the merged byte. *)
Lemma read_byte_after_set (c : CBits) (v : Z) (s : QMC5883L) :
  fits_octet c -> 0 <= v < 2 ^ num_bits c ->
  register_holds (register_address c) ->
  read_byte (register_address c) (snd (CBits_set c v s)) =
  CBits_encode c (read_byte (register_address c) s) v.
Proof.
  intros (Hw & Ho & Hfit) Hv Hreg.
  rewrite CBits_set_run. unfold read_byte at 1, read_data. simpl.
  rewrite Hreg; [reflexivity |].
  apply CBits_encode_octet; try assumption. apply read_byte_octet.
Qed.

Lemma CBits_set_then_get (c : CBits) (v : Z) (s : QMC5883L) :
  fits_octet c -> 0 <= v < 2 ^ num_bits c ->
  register_holds (register_address c) ->
  fst (CBits_get c (snd (CBits_set c v s))) = inr v.
Proof.
  intros Hc Hv Hreg.
  rewrite CBits_get_run. simpl. f_equal.
  rewrite read_byte_after_set by assumption.
  destruct Hc as (Hw & Ho & _).
  apply CBits_decode_encode_same; assumption.
Qed.

Lemma CBits_set_set_get (c c' : CBits) (v v' : Z) (s : QMC5883L) :
  fits_octet c -> fits_octet c' ->
  register_address c' = register_address c ->
  0 <= v < 2 ^ num_bits c -> 0 <= v' < 2 ^ num_bits c' ->
  start_bit c' + num_bits c' <= start_bit c \/
  start_bit c + num_bits c <= start_bit c' ->
  register_holds (register_address c) ->
  fst (CBits_get c' (snd (CBits_set c v (snd (CBits_set c' v' s))))) = inr v'.
Proof.
  intros Hc Hc' Hr Hv Hv' Hdis Hreg.
  rewrite CBits_get_run. simpl. f_equal.
  rewrite Hr, read_byte_after_set by assumption.
  rewrite <- Hr, read_byte_after_set by (try rewrite Hr; assumption).
  destruct Hc as (Hw & Ho & _). destruct Hc' as (Hw' & Ho' & _).
  rewrite CBits_decode_encode_other by assumption.
  apply CBits_decode_encode_same; assumption.
Qed.

(** ** Setters and getters *)

Lemma tuple_contains_In (t : list Z) (v : Z) :
  tuple_contains t v = true <-> In v t.
Proof.
  unfold tuple_contains. rewrite existsb_exists. split.
  - intros [x [Hx Heq]]. apply Z.eqb_eq in Heq. subst. exact Hx.
  - intros H. exists v. split; [exact H | apply Z.eqb_refl].
Qed.

Ltac unfold_codes :=
  unfold legal_values, oversample_values, field_range_values,
    data_rate_values, mode_values, OVERSAMPLE_64, OVERSAMPLE_128,
    OVERSAMPLE_256, OVERSAMPLE_512, FIELDRANGE_2G, FIELDRANGE_8G,
    OUTPUT_DATA_RATE_10, OUTPUT_DATA_RATE_50, OUTPUT_DATA_RATE_100,
    OUTPUT_DATA_RATE_200, MODE_STANDBY, MODE_CONTINUOUS in *.

Lemma cbits_of_fits (k : setting) : fits_octet (cbits_of k).
Proof. destruct k; unfold fits_octet; simpl; lia. Qed.

Lemma cbits_of_register (k : setting) :
  register_address (cbits_of k) = _REG_OPERATION_MODE.
Proof. destruct k; reflexivity. Qed.

Lemma legal_value_width (k : setting) (v : Z) :
  tuple_contains (legal_values k) v = true ->
  0 <= v < 2 ^ num_bits (cbits_of k).
Proof.
  intros H. apply tuple_contains_In in H.
  destruct k; unfold_codes; simpl in H;
    repeat (destruct H as [<- | H]; [simpl; lia |]); contradiction.
Qed.

Lemma legal_value_name (k : setting) (v : Z) :
  tuple_contains (legal_values k) v = true ->
  exists name,
    spec_name k v = Some name /\ tuple_getitem (names_of k) v = inr name.
Proof.
  intros H. apply tuple_contains_In in H.
  destruct k; unfold_codes; simpl in H;
    repeat (destruct H as [<- | H]; [eexists; split; reflexivity |]);
    contradiction.
Qed.

Lemma setter_legal (k : setting) (v : Z) (s : QMC5883L) :
  tuple_contains (legal_values k) v = true ->
  setter k v s = CBits_set (cbits_of k) v (prepared k v s).
Proof.
  intros H.
  destruct k; cbn [legal_values] in H; cbn [setter cbits_of prepared];
    unfold oversample_set, field_range_set, output_data_rate_set,
      mode_control_set;
    rewrite H; cbn [negb]; try reflexivity.
  destruct (v =? 1); reflexivity.
Qed.

Lemma setter_illegal (k : setting) (v : Z) (s : QMC5883L) :
  tuple_contains (legal_values k) v = false ->
  exists msg, setter k v s = (inl (ValueError msg), s).
Proof.
  intros H.
  destruct k; cbn [legal_values] in H; cbn [setter];
    unfold oversample_set, field_range_set, output_data_rate_set,
      mode_control_set;
    rewrite H; cbn [negb]; eexists; reflexivity.
Qed.

Lemma getter_run (k : setting) (s : QMC5883L) :
  getter k s =
  (tuple_getitem (names_of k)
     (CBits_decode (cbits_of k) (read_byte _REG_OPERATION_MODE s)),
   after_read _REG_OPERATION_MODE 1 s).
Proof.
  destruct k; simpl;
    unfold oversample_get, field_range_get, output_data_rate_get,
      mode_control_get;
    rewrite (bind_ok _ _ _ _ _ (CBits_get_run _ _)); reflexivity.
Qed.

Lemma getter_after_CBits_get (k : setting) (s : QMC5883L) (i : Z) :
  fst (CBits_get (cbits_of k) s) = inr i ->
  fst (getter k s) = tuple_getitem (names_of k) i.
Proof.
  rewrite getter_run, CBits_get_run, cbits_of_register. simpl.
  intros H. injection H as <-. reflexivity.
Qed.

Lemma prepared_i2c (k : setting) (v : Z) (s : QMC5883L) :
  _i2c (prepared k v s) = _i2c s /\ _address (prepared k v s) = _address s
  /\ trace (prepared k v s) = trace s.
Proof. destruct k; simpl; try destruct (v =? 1); auto. Qed.

Lemma distinct_fields_disjoint (k k' : setting) :
  k <> k' ->
  start_bit (cbits_of k') + num_bits (cbits_of k') <= start_bit (cbits_of k) \/
  start_bit (cbits_of k) + num_bits (cbits_of k) <= start_bit (cbits_of k').
Proof. destruct k, k'; simpl; intros H; try lia; contradiction H; reflexivity. Qed.

Lemma set_get_name (k : setting) (v : Z) (s : QMC5883L) :
  register_holds _REG_OPERATION_MODE ->
  tuple_contains (legal_values k) v = true ->
  fst ((setter k v ;;; getter k) s) = tuple_getitem (names_of k) v.
Proof.
  intros Hreg Hv.
  unfold bind. rewrite setter_legal by exact Hv.
  destruct (CBits_set (cbits_of k) v (prepared k v s)) as [[e | []] s1] eqn:E.
  - rewrite CBits_set_run in E. discriminate E.
  - apply getter_after_CBits_get.
    replace s1 with (snd (CBits_set (cbits_of k) v (prepared k v s)))
      by (rewrite E; reflexivity).
    apply CBits_set_then_get.
    + apply cbits_of_fits.
    + apply legal_value_width, Hv.
    + rewrite cbits_of_register. exact Hreg.
Qed.

Lemma set_set_get_name (k k' : setting) (v v' : Z) (s : QMC5883L) :
  register_holds _REG_OPERATION_MODE ->
  k <> k' ->
  tuple_contains (legal_values k) v = true ->
  tuple_contains (legal_values k') v' = true ->
  fst ((setter k' v' ;;; setter k v ;;; getter k') s) =
  tuple_getitem (names_of k') v'.
Proof.
  intros Hreg Hne Hv Hv'.
  unfold bind. rewrite setter_legal by exact Hv'.
  rewrite CBits_set_run.
  rewrite setter_legal by exact Hv.
  rewrite CBits_set_run.
  apply getter_after_CBits_get.
  rewrite CBits_get_run. simpl. f_equal.
  set (s1 := after_write _ _ (after_read _ _ (prepared k' v' s))).
  assert (H1 : read_byte _REG_OPERATION_MODE (prepared k v s1) =
               CBits_encode (cbits_of k')
                 (read_byte _REG_OPERATION_MODE (prepared k' v' s)) v').
  { destruct (prepared_i2c k v s1) as (Hd & Ha & _).
    unfold read_byte at 1, read_data. rewrite Hd, Ha.
    fold (read_data _REG_OPERATION_MODE 1 s1). fold (read_byte _REG_OPERATION_MODE s1).
    subst s1.
    rewrite <- (cbits_of_register k') at 1.
    pose proof (read_byte_after_set (cbits_of k') v' (prepared k' v' s)) as R.
    rewrite CBits_set_run in R. simpl in R. rewrite R.
    - rewrite cbits_of_register. reflexivity.
    - apply cbits_of_fits.
    - apply legal_value_width, Hv'.
    - rewrite cbits_of_register. exact Hreg. }
  pose proof (read_byte_after_set (cbits_of k) v (prepared k v s1)) as R.
  rewrite CBits_set_run in R. simpl in R.
  rewrite !cbits_of_register in *.
  rewrite R.
  - rewrite H1.
    rewrite CBits_decode_encode_other.
    + apply CBits_decode_encode_same;
        [apply cbits_of_fits | apply cbits_of_fits | apply legal_value_width, Hv'].
    + apply cbits_of_fits.
    + apply cbits_of_fits.
    + apply cbits_of_fits.
    + apply cbits_of_fits.
    + apply legal_value_width, Hv.
    + apply distinct_fields_disjoint, Hne.
  - apply cbits_of_fits.
  - apply legal_value_width, Hv.
  - exact Hreg.
Qed.

Lemma bind_fst {A C : Type} (m : M A) (k : A -> M C) (s : QMC5883L) (a : A) :
  fst (m s) = inr a -> bind m k s = k a (snd (m s)).
Proof. intros H. unfold bind. destruct (m s) as [[e | a'] s']; simpl in *; congruence. Qed.

Lemma setter_legal_ok (k : setting) (v : Z) (s : QMC5883L) :
  tuple_contains (legal_values k) v = true -> fst (setter k v s) = inr tt.
Proof. intros H. rewrite setter_legal, CBits_set_run by exact H. reflexivity. Qed.

Lemma read_byte_prepared (k : setting) (v r : Z) (s : QMC5883L) :
  read_byte r (prepared k v s) = read_byte r s.
Proof.
  destruct (prepared_i2c k v s) as (Hd & Ha & _).
  unfold read_byte, read_data. rewrite Hd, Ha. reflexivity.
Qed.

Lemma setter_legal_trace (k : setting) (v : Z) (s : QMC5883L) :
  tuple_contains (legal_values k) v = true ->
  trace (snd (setter k v s)) =
  trace s ++
  [EvRead (_address s) _REG_OPERATION_MODE 1 [read_byte _REG_OPERATION_MODE s];
   EvWrite (_address s) _REG_OPERATION_MODE
     [CBits_encode (cbits_of k) (read_byte _REG_OPERATION_MODE s) v]].
Proof.
  intros H. rewrite setter_legal, CBits_set_trace by exact H.
  destruct (prepared_i2c k v s) as (_ & Ha & Ht).
  rewrite cbits_of_register, read_byte_prepared, Ha, Ht. reflexivity.
Qed.

Lemma setter_legal_address (k : setting) (v : Z) (s : QMC5883L) :
  tuple_contains (legal_values k) v = true ->
  _address (snd (setter k v s)) = _address s.
Proof.
  intros H. rewrite setter_legal, CBits_set_address by exact H.
  apply prepared_i2c.
Qed.

Lemma setter_legal_resolution (k : setting) (v : Z) (s : QMC5883L) :
  tuple_contains (legal_values k) v = true ->
  resolution (snd (setter k v s)) =
  match k with
  | FieldRange => Some (spec_resolution v)
  | _ => resolution s
  end.
Proof.
  intros H. rewrite setter_legal, CBits_set_resolution by exact H.
  destruct k; try reflexivity.
  unfold prepared, spec_resolution. destruct (v =? 1); reflexivity.
Qed.

Lemma getter_resolution (k : setting) (s : QMC5883L) :
  resolution (snd (getter k s)) = resolution s.
Proof. rewrite getter_run. simpl. apply after_read_resolution. Qed.

(** ** Multi-byte registers *)

Lemma calcsize_device_id : calcsize native (format _device_id) = Some 2%nat.
Proof. reflexivity. Qed.

Lemma calcsize_measures : calcsize native (format _measures) = Some 9%nat.
Proof. reflexivity. Qed.

Lemma unpack_device_id (data : list Z) :
  length data = 2%nat ->
  unpack native (format _device_id) data = Some [uint_of native data].
Proof.
  intros H. destruct data as [| b0 [| b1 [| b2 l]]]; try discriminate H.
  reflexivity.
Qed.

Lemma pack_reset : pack native (format _reset) [0x01] = Some (bytes_of native 2 0x01).
Proof. destruct native; reflexivity. Qed.

Lemma unpack_measures (data : list Z) :
  length data = 9%nat ->
  exists b0 b1 b2 b3 b4 b5 b6 b7 b8,
    data = [b0; b1; b2; b3; b4; b5; b6; b7; b8] /\
    unpack native (format _measures) data =
    Some [decode_field LittleEndian fmt_h [b0; b1];
          decode_field LittleEndian fmt_h [b2; b3];
          decode_field LittleEndian fmt_h [b4; b5];
          decode_field LittleEndian fmt_B [b6];
          decode_field LittleEndian fmt_h [b7; b8]].
Proof.
  intros H.
  do 9 (destruct data as [| ? data]; [discriminate H |]).
  destruct data; [| discriminate H].
  do 9 eexists. split; reflexivity.
Qed.

Lemma RegisterStruct_get_device_id (s : QMC5883L) :
  RegisterStruct_get _device_id s =
  (inr (VInt (uint_of native (read_data _REG_WHOAMI 2 s))),
   after_read _REG_WHOAMI 2 s).
Proof.
  unfold RegisterStruct_get. rewrite calcsize_device_id.
  change (rs_register _device_id) with _REG_WHOAMI.
  rewrite (bind_ok _ _ _ _ _ (i2c_readfrom_mem_run _ _ _)).
  rewrite unpack_device_id by apply read_data_length.
  reflexivity.
Qed.

Lemma RegisterStruct_set_reset (s : QMC5883L) :
  RegisterStruct_set _reset 0x01 s =
  (inr tt, after_write _REG_SET_RESET (bytes_of native 2 0x01) s).
Proof. unfold RegisterStruct_set. rewrite pack_reset. reflexivity. Qed.

(** ** Construction *)

Lemma init_not_found (i2c : B) (address : Z) :
  identity_of i2c address <> 0xFF ->
  __init__ i2c address =
  (inl (RuntimeError "Failed to find the QMC5883L!"),
   after_read _REG_WHOAMI 2 (fresh i2c address)).
Proof.
  intros H. unfold __init__, init_body. fold (fresh i2c address).
  rewrite (bind_ok _ _ _ _ _ (RegisterStruct_get_device_id _)).
  fold (identity_of i2c address). unfold ne_0xFF.
  destruct (Z.eqb_spec (identity_of i2c address) 0xFF) as [E | _];
    [contradiction | reflexivity].
Qed.

Lemma init_found (i2c : B) (address : Z) :
  identity_of i2c address = 0xFF ->
  __init__ i2c address = apply_defaults (reset_done i2c address).
Proof.
  intros H. unfold __init__, init_body. fold (fresh i2c address).
  rewrite (bind_ok _ _ _ _ _ (RegisterStruct_get_device_id _)).
  fold (identity_of i2c address). unfold ne_0xFF. rewrite H, Z.eqb_refl. cbn [negb].
  rewrite (bind_ok _ _ _ _ _ (RegisterStruct_set_reset _)).
  reflexivity.
Qed.

(** ** The poll *)

Lemma is_ready_status (s : QMC5883L) :
  is_ready s = status_ready [read_byte _REG_STATUS s].
Proof. unfold is_ready. rewrite CBits_get_run. reflexivity. Qed.

Lemma poll_once_run (s : QMC5883L) :
  poll_once s = snd (time_sleep (after_read _REG_STATUS 1 s)).
Proof. unfold poll_once. rewrite CBits_get_run. reflexivity. Qed.

Lemma wait_data_ready_S (fuel : nat) (s : QMC5883L) :
  wait_data_ready (S fuel) s =
  if negb (is_ready s)
  then wait_data_ready fuel (poll_once s)
  else Some (inr tt, after_read _REG_STATUS 1 s).
Proof.
  unfold is_ready, poll_once. cbn [wait_data_ready].
  rewrite CBits_get_run. reflexivity.
Qed.

Lemma wait_ready_now (fuel : nat) (s : QMC5883L) :
  is_ready s = true ->
  wait_data_ready (S fuel) s = Some (inr tt, after_read _REG_STATUS 1 s).
Proof. intros H. rewrite wait_data_ready_S, H. reflexivity. Qed.

Lemma wait_not_ready (fuel : nat) (s : QMC5883L) :
  is_ready s = false ->
  wait_data_ready (S fuel) s = wait_data_ready fuel (poll_once s).
Proof. intros H. rewrite wait_data_ready_S, H. reflexivity. Qed.

Lemma first_ready_at_step (n : nat) (s : QMC5883L) :
  first_ready_at (S n) s ->
  is_ready s = false /\ first_ready_at n (poll_once s).
Proof.
  intros [Hidle Hnow]. split.
  - apply (Hidle 0%nat). lia.
  - split; [| exact Hnow].
    intros j Hj. apply (Hidle (S j)). lia.
Qed.

Lemma wait_returns (n : nat) :
  forall (fuel : nat) (s : QMC5883L),
    first_ready_at n s -> (n < fuel)%nat ->
    wait_data_ready fuel s =
    Some (inr tt, after_read _REG_STATUS 1 (after_polls n s)).
Proof.
  induction n as [| n IH]; intros fuel s Hfirst Hfuel;
    destruct fuel as [| fuel]; try lia.
  - apply wait_ready_now. apply Hfirst.
  - apply first_ready_at_step in Hfirst. destruct Hfirst as [Hidle Hrest].
    rewrite wait_not_ready by exact Hidle.
    apply IH; [exact Hrest | lia].
Qed.

Lemma wait_never (fuel : nat) :
  forall s : QMC5883L, never_ready s -> wait_data_ready fuel s = None.
Proof.
  induction fuel as [| fuel IH]; intros s Hnever; [reflexivity |].
  rewrite wait_not_ready by apply (Hnever 0%nat).
  apply IH. intros j. apply (Hnever (S j)).
Qed.

Lemma wait_inversion (fuel : nat) :
  forall (s s' : QMC5883L) (r : exn + unit),
    wait_data_ready fuel s = Some (r, s') ->
    exists n, (n < fuel)%nat /\ first_ready_at n s /\ r = inr tt /\
              s' = after_read _REG_STATUS 1 (after_polls n s).
Proof.
  induction fuel as [| fuel IH]; intros s s' r H; [discriminate H |].
  destruct (is_ready s) eqn:E.
  - rewrite wait_ready_now in H by exact E. injection H as <- <-.
    exists 0%nat. repeat split; try lia; try exact E.
  - rewrite wait_not_ready in H by exact E.
    apply IH in H. destruct H as (n & Hn & [Hidle Hnow] & -> & ->).
    exists (S n). split; [lia |]. split; [| split; reflexivity].
    split; [| exact Hnow].
    intros [| j] Hj; [exact E | apply Hidle; lia].
Qed.

Lemma poll_once_fields (s : QMC5883L) :
  _address (poll_once s) = _address s /\
  resolution (poll_once s) = resolution s /\
  trace (poll_once s) =
  trace s ++ [EvRead (_address s) _REG_STATUS 1 [read_byte _REG_STATUS s]; EvSleep].
Proof.
  rewrite poll_once_run. simpl.
  rewrite after_read_address, after_read_resolution, after_read_trace,
    read_data_one, <- app_assoc.
  auto.
Qed.

Lemma after_polls_fields (n : nat) :
  forall s : QMC5883L,
    _address (after_polls n s) = _address s /\
    resolution (after_polls n s) = resolution s /\
    trace (after_polls n s) = trace s ++ idle_events n s.
Proof.
  induction n as [| n IH]; intros s; simpl.
  - rewrite app_nil_r. auto.
  - destruct (IH (poll_once s)) as (Ha & Hr & Ht).
    destruct (poll_once_fields s) as (Ha' & Hr' & Ht').
    rewrite Ha, Hr, Ht, Ha', Hr', Ht', <- app_assoc. auto.
Qed.

Lemma idle_events_idle (n : nat) :
  forall s : QMC5883L,
    (forall j, (j < n)%nat -> is_ready (after_polls j s) = false) ->
    forallb is_idle_poll (idle_events n s) = true.
Proof.
  induction n as [| n IH]; intros s Hidle; [reflexivity |].
  assert (H0 : is_ready s = false) by (apply (Hidle 0%nat); lia).
  cbn [idle_events forallb is_idle_poll].
  rewrite <- is_ready_status, H0, Z.eqb_refl. cbn [negb andb Nat.eqb].
  apply IH. intros j Hj. apply (Hidle (S j)). lia.
Qed.

Lemma idle_events_counts (n : nat) :
  forall s : QMC5883L,
    count_events is_status_read (idle_events n s) = n /\
    count_events is_measure_read (idle_events n s) = 0%nat /\
    count_events is_write (idle_events n s) = 0%nat.
Proof.
  induction n as [| n IH]; intros s; [repeat split |].
  destruct (IH (poll_once s)) as (H1 & H2 & H3).
  unfold count_events in *. simpl. rewrite H1, H2, H3. auto.
Qed.

(** ** The measurement block *)

Lemma axes_of_block (data : list Z) :
  length data = 9%nat ->
  exists x y z t u,
    unpack native (format _measures) data = Some [x; y; z; t; u] /\
    axes_of data = Some (x, y, z) /\
    x = decode_field LittleEndian fmt_h (firstn 2 data) /\
    y = decode_field LittleEndian fmt_h (firstn 2 (skipn 2 data)) /\
    z = decode_field LittleEndian fmt_h (firstn 2 (skipn 4 data)).
Proof.
  intros H. destruct (unpack_measures data H)
    as (b0 & b1 & b2 & b3 & b4 & b5 & b6 & b7 & b8 & -> & Hu).
  unfold axes_of. rewrite Hu. do 5 eexists. repeat split.
Qed.

Lemma RegisterStruct_get_measures (s : QMC5883L) :
  exists x y z t u,
    axes_of (read_data 0x00 9 s) = Some (x, y, z) /\
    RegisterStruct_get _measures s =
    (inr (VTuple [x; y; z; t; u]), after_read 0x00 9 s).
Proof.
  destruct (axes_of_block (read_data 0x00 9 s) (read_data_length _ _ _))
    as (x & y & z & t & u & Hu & Hax & _).
  exists x, y, z, t, u. split; [exact Hax |].
  unfold RegisterStruct_get. rewrite calcsize_measures.
  change (rs_register _measures) with 0x00.
  rewrite (bind_ok _ _ _ _ _ (i2c_readfrom_mem_run _ _ _)).
  rewrite Hu. reflexivity.
Qed.

Lemma scaled_run (x r : Z) (s : QMC5883L) :
  resolution s = Some r -> r <> 0 ->
  scaled x s = (inr (quotient x r), s).
Proof.
  intros Hr Hnz. unfold scaled, bind, get_resolution, lift, truediv.
  rewrite Hr. destruct (Z.eqb_spec r 0); [contradiction | reflexivity].
Qed.

Lemma read_measures_run (r : Z) (s : QMC5883L) :
  resolution s = Some r -> r <> 0 ->
  exists x y z,
    axes_of (read_data 0x00 9 s) = Some (x, y, z) /\
    read_measures s =
    (inr (quotient x r, quotient y r, quotient z r), after_read 0x00 9 s).
Proof.
  intros Hr Hnz.
  destruct (RegisterStruct_get_measures s) as (x & y & z & t & u & Hax & Hget).
  exists x, y, z. split; [exact Hax |].
  assert (Hr' : resolution (after_read 0x00 9 s) = Some r)
    by (rewrite after_read_resolution; exact Hr).
  unfold read_measures.
  rewrite (bind_ok _ _ _ _ _ Hget).
  unfold lift at 1, unpack5, bind at 1.
  rewrite (bind_ok _ _ _ _ _ (scaled_run x r _ Hr' Hnz)).
  rewrite (bind_ok _ _ _ _ _ (scaled_run y r _ Hr' Hnz)).
  rewrite (bind_ok _ _ _ _ _ (scaled_run z r _ Hr' Hnz)).
  reflexivity.
Qed.

(** The magnetic read, once the poll that finds the sensor ready is
    known. *)
Lemma magnetic_returns (n fuel : nat) (r : Z) (s : QMC5883L) :
  first_ready_at n s -> (n < fuel)%nat ->
  resolution s = Some r -> r <> 0 ->
  exists x y z,
    let s1 := after_read _REG_STATUS 1 (after_polls n s) in
    axes_of (read_data 0x00 9 s1) = Some (x, y, z) /\
    magnetic fuel s =
    Some (inr (quotient x r, quotient y r, quotient z r), after_read 0x00 9 s1).
Proof.
  intros Hfirst Hfuel Hr Hnz.
  set (s1 := after_read _REG_STATUS 1 (after_polls n s)).
  assert (Hr1 : resolution s1 = Some r).
  { subst s1. rewrite after_read_resolution.
    destruct (after_polls_fields n s) as (_ & -> & _). exact Hr. }
  destruct (read_measures_run r s1 Hr1 Hnz) as (x & y & z & Hax & Hrun).
  exists x, y, z. split; [exact Hax |].
  unfold magnetic. rewrite (wait_returns n fuel s Hfirst Hfuel).
  fold s1. rewrite Hrun. reflexivity.
Qed.

Lemma magnetic_trace (n : nat) (s : QMC5883L) :
  let s1 := after_read _REG_STATUS 1 (after_polls n s) in
  trace (after_read 0x00 9 s1) =
  trace s ++ idle_events n s ++
  [EvRead (_address s) _REG_STATUS 1 [read_byte _REG_STATUS (after_polls n s)];
   EvRead (_address s) 0x00 9 (read_data 0x00 9 s1)].
Proof.
  intros s1. subst s1.
  destruct (after_polls_fields n s) as (Ha & _ & Ht).
  rewrite !after_read_trace, after_read_address, read_data_one, Ha, Ht,
    <- !app_assoc.
  reflexivity.
Qed.

Lemma added_app (t u : list event) : added t (t ++ u) = u.
Proof.
  unfold added. rewrite skipn_app, skipn_all, Nat.sub_diag. reflexivity.
Qed.

Lemma read_measures_outcome (s : QMC5883L) :
  exists x y z,
    axes_of (read_data 0x00 9 s) = Some (x, y, z) /\
    read_measures s =
    (match resolution s with
     | None => inl AttributeError
     | Some r =>
         if r =? 0 then inl ZeroDivisionError
         else inr (quotient x r, quotient y r, quotient z r)
     end, after_read 0x00 9 s).
Proof.
  destruct (RegisterStruct_get_measures s) as (x & y & z & t & u & Hax & Hget).
  exists x, y, z. split; [exact Hax |].
  pose proof (after_read_resolution 0x00 9 s) as Hres.
  unfold read_measures. rewrite (bind_ok _ _ _ _ _ Hget).
  unfold lift, unpack5, bind at 1.
  destruct (resolution s) as [r |] eqn:Hr.
  - destruct (Z.eqb_spec r 0) as [-> | Hnz].
    + unfold scaled, bind, get_resolution, lift, truediv.
      rewrite Hres. reflexivity.
    + rewrite (bind_ok _ _ _ _ _ (scaled_run x r _ Hres Hnz)).
      rewrite (bind_ok _ _ _ _ _ (scaled_run y r _ Hres Hnz)).
      rewrite (bind_ok _ _ _ _ _ (scaled_run z r _ Hres Hnz)).
      reflexivity.
  - unfold scaled, bind, get_resolution. rewrite Hres. reflexivity.
Qed.

(** Whatever the magnetic read ends in, it got there through the polls
    that found the sensor not ready, the one that found it ready, and one
    read of the measurement block. *)
Lemma magnetic_inversion (fuel : nat) (s s' : QMC5883L)
  (out : exn + (Q * Q * Q)) :
  magnetic fuel s = Some (out, s') ->
  exists n x y z,
    let s1 := after_read _REG_STATUS 1 (after_polls n s) in
    (n < fuel)%nat /\ first_ready_at n s /\
    s' = after_read 0x00 9 s1 /\
    axes_of (read_data 0x00 9 s1) = Some (x, y, z) /\
    out = match resolution s with
          | None => inl AttributeError
          | Some r =>
              if r =? 0 then inl ZeroDivisionError
              else inr (quotient x r, quotient y r, quotient z r)
          end.
Proof.
  unfold magnetic. intros H.
  destruct (wait_data_ready fuel s) as [[r s1] |] eqn:W; [| discriminate H].
  apply wait_inversion in W. destruct W as (n & Hn & Hfirst & -> & ->).
  destruct (read_measures_outcome (after_read _REG_STATUS 1 (after_polls n s)))
    as (x & y & z & Hax & Hrun).
  exists n, x, y, z. cbv zeta.
  rewrite after_read_resolution in Hrun.
  destruct (after_polls_fields n s) as (_ & Hr & _). rewrite Hr in Hrun.
  rewrite Hrun in H. injection H as <- <-. auto.
Qed.

Lemma ready_guarded_after_idle (idle : list event) (a a' : Z) (b : Z)
  (data : list Z) (n : nat) :
  forallb is_idle_poll idle = true ->
  status_ready [b] = true ->
  forall ready,
    ready_guarded ready
      (idle ++ [EvRead a _REG_STATUS 1 [b]; EvRead a' 0x00 n data]) = true.
Proof.
  intros Hidle Hb.
  induction idle as [| e idle IH]; intros ready.
  - simpl. rewrite Hb. reflexivity.
  - simpl in Hidle. apply andb_true_iff in Hidle. destruct Hidle as [He Hrest].
    destruct e as [ea er en ed | |]; simpl in *.
    + apply andb_true_iff in He. destruct He as [He _].
      apply andb_true_iff in He. destruct He as [He _].
      rewrite He. apply IH. exact Hrest.
    + discriminate He.
    + apply IH. exact Hrest.
Qed.

Lemma apply_defaults_run (s : QMC5883L) :
  fst (apply_defaults s) = inr tt /\
  resolution (snd (apply_defaults s)) = Some 12000 /\
  exists b1 b2 b3 b4,
    trace (snd (apply_defaults s)) =
    trace s ++
    [EvRead (_address s) _REG_OPERATION_MODE 1 [b1];
     EvWrite (_address s) _REG_OPERATION_MODE
       [CBits_encode _oversample b1 OVERSAMPLE_128];
     EvRead (_address s) _REG_OPERATION_MODE 1 [b2];
     EvWrite (_address s) _REG_OPERATION_MODE
       [CBits_encode _field_range b2 FIELDRANGE_2G];
     EvRead (_address s) _REG_OPERATION_MODE 1 [b3];
     EvWrite (_address s) _REG_OPERATION_MODE
       [CBits_encode _output_data_rate b3 OUTPUT_DATA_RATE_200];
     EvRead (_address s) _REG_OPERATION_MODE 1 [b4];
     EvWrite (_address s) _REG_OPERATION_MODE
       [CBits_encode _mode_control b4 MODE_CONTINUOUS]].
Proof.
  unfold apply_defaults.
  change (oversample_set OVERSAMPLE_128) with (setter Oversample OVERSAMPLE_128).
  change (field_range_set FIELDRANGE_2G) with (setter FieldRange FIELDRANGE_2G).
  change (output_data_rate_set OUTPUT_DATA_RATE_200)
    with (setter DataRate OUTPUT_DATA_RATE_200).
  change (mode_control_set MODE_CONTINUOUS) with (setter Mode MODE_CONTINUOUS).
  assert (L1 : tuple_contains (legal_values Oversample) OVERSAMPLE_128 = true)
    by reflexivity.
  assert (L2 : tuple_contains (legal_values FieldRange) FIELDRANGE_2G = true)
    by reflexivity.
  assert (L3 : tuple_contains (legal_values DataRate) OUTPUT_DATA_RATE_200 = true)
    by reflexivity.
  assert (L4 : tuple_contains (legal_values Mode) MODE_CONTINUOUS = true)
    by reflexivity.
  rewrite (bind_fst _ _ s tt (setter_legal_ok _ _ _ L1)).
  set (s1 := snd (setter Oversample OVERSAMPLE_128 s)).
  rewrite (bind_fst _ _ s1 tt (setter_legal_ok _ _ _ L2)).
  set (s2 := snd (setter FieldRange FIELDRANGE_2G s1)).
  rewrite (bind_fst _ _ s2 tt (setter_legal_ok _ _ _ L3)).
  set (s3 := snd (setter DataRate OUTPUT_DATA_RATE_200 s2)).
  split; [apply setter_legal_ok, L4 |].
  split.
  - rewrite (setter_legal_resolution _ _ _ L4). cbv iota. subst s3.
    rewrite (setter_legal_resolution _ _ _ L3). cbv iota. subst s2.
    rewrite (setter_legal_resolution _ _ _ L2). reflexivity.
  - exists (read_byte _REG_OPERATION_MODE s), (read_byte _REG_OPERATION_MODE s1),
      (read_byte _REG_OPERATION_MODE s2), (read_byte _REG_OPERATION_MODE s3).
    rewrite (setter_legal_trace _ _ _ L4).
    rewrite (setter_legal_address _ _ s2 L3 : _address s3 = _address s2).
    unfold s3 at 1. rewrite (setter_legal_trace _ _ _ L3).
    rewrite (setter_legal_address _ _ s1 L2 : _address s2 = _address s1).
    unfold s2 at 1. rewrite (setter_legal_trace _ _ _ L2).
    rewrite (setter_legal_address _ _ s L1 : _address s1 = _address s).
    unfold s1 at 1. rewrite (setter_legal_trace _ _ _ L1).
    rewrite <- !app_assoc. reflexivity.
Qed.

(** ** Sequences of operations *)

Lemma setter_returns_legal (k : setting) (v : Z) (s s' : QMC5883L) (u : unit) :
  setter k v s = (inr u, s') -> tuple_contains (legal_values k) v = true.
Proof.
  intros H. destruct (tuple_contains (legal_values k) v) eqn:E; [reflexivity |].
  destruct (setter_illegal k v s E) as [msg Hmsg]. congruence.
Qed.

Lemma spec_resolution_nonzero (v : Z) : spec_resolution v <> 0.
Proof. unfold spec_resolution. destruct (v =? 1); lia. Qed.

Lemma run_op_resolution (o : op) (cur : Z) (s s' : QMC5883L) :
  In cur field_range_values ->
  resolution s = Some (spec_resolution cur) ->
  run_op o s = Some s' ->
  In (last_field_range cur [o]) field_range_values /\
  resolution s' = Some (spec_resolution (last_field_range cur [o])).
Proof.
  intros Hcur Hres Hrun. destruct o as [k v | k | fuel]; simpl in Hrun.
  - destruct (setter k v s) as [[e | u] s1] eqn:E; [discriminate Hrun |].
    injection Hrun as <-.
    pose proof (setter_returns_legal _ _ _ _ _ E) as Hv.
    pose proof (setter_legal_resolution k v s Hv) as R.
    rewrite E in R. simpl in R.
    destruct k; cbn [last_field_range]; rewrite R;
      try (split; [exact Hcur | exact Hres]).
    split; [apply tuple_contains_In; exact Hv | reflexivity].
  - destruct (getter k s) as [[e | name] s1] eqn:E; [discriminate Hrun |].
    injection Hrun as <-.
    pose proof (getter_resolution k s) as R. rewrite E in R. simpl in R.
    rewrite R. simpl. split; [destruct k; exact Hcur | exact Hres].
  - destruct (magnetic fuel s) as [[[e | m] s1] |] eqn:E; try discriminate Hrun.
    injection Hrun as <-.
    apply magnetic_inversion in E.
    destruct E as (n & x & y & z & _ & _ & -> & _).
    rewrite !after_read_resolution.
    destruct (after_polls_fields n s) as (_ & -> & _).
    simpl. split; [exact Hcur | exact Hres].
Qed.

Lemma run_ops_resolution (ops : list op) :
  forall (cur : Z) (s s' : QMC5883L),
    In cur field_range_values ->
    resolution s = Some (spec_resolution cur) ->
    run_ops ops s = Some s' ->
    In (last_field_range cur ops) field_range_values /\
    resolution s' = Some (spec_resolution (last_field_range cur ops)).
Proof.
  induction ops as [| o ops IH]; intros cur s s' Hcur Hres Hrun.
  - injection Hrun as <-. split; assumption.
  - simpl in Hrun. destruct (run_op o s) as [s1 |] eqn:E; [| discriminate Hrun].
    destruct (run_op_resolution o cur s s1 Hcur Hres E) as [Hin Hres1].
    specialize (IH _ _ _ Hin Hres1 Hrun).
    destruct o as [[] v | k | fuel]; exact IH.
Qed.

Lemma init_returns (i2c : B) (address : Z) (s : QMC5883L) (u : unit) :
  __init__ i2c address = (inr u, s) ->
  identity_of i2c address = 0xFF /\
  s = snd (apply_defaults (reset_done i2c address)).
Proof.
  intros H. destruct (Z.eq_dec (identity_of i2c address) 0xFF) as [E | E].
  - split; [exact E |]. rewrite <- (init_found _ _ E), H. reflexivity.
  - rewrite (init_not_found _ _ E) in H. discriminate H.
Qed.

(** ** Addresses and events of whole runs *)

Lemma setter_seq_snd {C : Type} (k : setting) (v : Z) (m : M C) (s : QMC5883L) :
  tuple_contains (legal_values k) v = true ->
  (setter k v ;;; m) s = m (snd (setter k v s)).
Proof.
  intros Hv.
  exact (bind_fst (setter k v) (fun _ => m) s tt (setter_legal_ok k v s Hv)).
Qed.

Lemma apply_defaults_snd (s : QMC5883L) :
  snd (apply_defaults s) = defaults_applied s.
Proof.
  unfold apply_defaults, defaults_applied.
  change (oversample_set OVERSAMPLE_128) with (setter Oversample OVERSAMPLE_128).
  change (field_range_set FIELDRANGE_2G) with (setter FieldRange FIELDRANGE_2G).
  change (output_data_rate_set OUTPUT_DATA_RATE_200)
    with (setter DataRate OUTPUT_DATA_RATE_200).
  change (mode_control_set MODE_CONTINUOUS) with (setter Mode MODE_CONTINUOUS).
  rewrite !setter_seq_snd by reflexivity. reflexivity.
Qed.

Lemma reset_done_address (i2c : B) (address : Z) :
  _address (reset_done i2c address) = address.
Proof. unfold reset_done. simpl. rewrite after_read_address. reflexivity. Qed.

Lemma magnetic_fields (fuel : nat) (s s' : QMC5883L) (out : exn + (Q * Q * Q)) :
  magnetic fuel s = Some (out, s') ->
  _address s' = _address s /\ resolution s' = resolution s /\
  exists n,
    trace s' =
    trace s ++ idle_events n s ++
    [EvRead (_address s) _REG_STATUS 1 [read_byte _REG_STATUS (after_polls n s)];
     EvRead (_address s) 0x00 9
       (read_data 0x00 9 (after_read _REG_STATUS 1 (after_polls n s)))].
Proof.
  intros Hmag. apply magnetic_inversion in Hmag.
  destruct Hmag as (n & x & y & z & _ & _ & -> & _ & _).
  destruct (after_polls_fields n s) as (Ha & Hr & _).
  rewrite !after_read_address, !after_read_resolution, Ha, Hr.
  split; [reflexivity |]. split; [reflexivity |].
  exists n. apply magnetic_trace.
Qed.


Lemma idle_events_discipline (n : nat) :
  forall s : QMC5883L,
    forallb (bus_discipline (_address s)) (idle_events n s) = true.
Proof.
  induction n as [| n IH]; intros s; [reflexivity |].
  destruct (poll_once_fields s) as (Ha & _).
  pose proof (IH (poll_once s)) as Hrest. rewrite Ha in Hrest.
  cbn [idle_events forallb]. rewrite Hrest.
  unfold bus_discipline. rewrite !Z.eqb_refl. reflexivity.
Qed.

Lemma run_op_discipline (o : op) (s s' : QMC5883L) :
  run_op o s = Some s' ->
  _address s' = _address s /\
  exists t,
    trace s' = trace s ++ t /\
    forallb (bus_discipline (_address s)) t = true.
Proof.
  intros Hrun. destruct o as [k v | k | fuel]; simpl in Hrun.
  - destruct (setter k v s) as [[e | u] s1] eqn:E; [discriminate Hrun |].
    injection Hrun as <-.
    pose proof (setter_returns_legal _ _ _ _ _ E) as Hv.
    pose proof (setter_legal_address k v s Hv) as Ha.
    pose proof (setter_legal_trace k v s Hv) as Ht.
    rewrite E in Ha, Ht. cbn [snd] in Ha, Ht.
    split; [exact Ha |]. eexists. split; [exact Ht |].
    cbn [forallb bus_discipline length]. rewrite !Z.eqb_refl.
    cbn [andb orb Nat.eqb]. unfold is_octet.
    destruct (cbits_of_fits k) as (Hw & Ho & Hfit).
    pose proof (CBits_encode_octet (cbits_of k)
                  (read_byte _REG_OPERATION_MODE s) v Hw Ho Hfit
                  (read_byte_octet _ _) (legal_value_width k v Hv)) as Hoct.
    destruct (Z.leb_spec 0 (CBits_encode (cbits_of k)
                              (read_byte _REG_OPERATION_MODE s) v)); [| lia].
    destruct (Z.ltb_spec (CBits_encode (cbits_of k)
                            (read_byte _REG_OPERATION_MODE s) v) 256); [| lia].
    reflexivity.
  - destruct (getter k s) as [[e | name] s1] eqn:E; [discriminate Hrun |].
    injection Hrun as <-.
    rewrite getter_run in E. injection E as _ <-.
    rewrite after_read_address, after_read_trace.
    split; [reflexivity |]. eexists. split; [reflexivity |].
    cbn [forallb bus_discipline]. rewrite !Z.eqb_refl. reflexivity.
  - destruct (magnetic fuel s) as [[[e | m] s1] |] eqn:E; try discriminate Hrun.
    injection Hrun as <-.
    destruct (magnetic_fields fuel s s1 _ E) as (Ha & _ & n & Ht).
    split; [exact Ha |]. eexists. split; [exact Ht |].
    rewrite forallb_app, idle_events_discipline.
    cbn [forallb bus_discipline]. rewrite !Z.eqb_refl. reflexivity.
Qed.

Lemma run_ops_discipline (ops : list op) :
  forall s s' : QMC5883L,
    run_ops ops s = Some s' ->
    _address s' = _address s /\
    exists t,
      trace s' = trace s ++ t /\
      forallb (bus_discipline (_address s)) t = true.
Proof.
  induction ops as [| o ops IH]; intros s s' Hrun.
  - injection Hrun as <-. split; [reflexivity |].
    exists []. rewrite app_nil_r. split; reflexivity.
  - simpl in Hrun. destruct (run_op o s) as [s1 |] eqn:E; [| discriminate Hrun].
    destruct (run_op_discipline o s s1 E) as (Ha1 & t1 & Ht1 & Hd1).
    destruct (IH s1 s' Hrun) as (Ha & t & Ht & Hd).
    split; [congruence |].
    exists (t1 ++ t). rewrite Ht, Ht1, <- app_assoc.
    split; [reflexivity |].
    rewrite forallb_app, Hd1. rewrite Ha1 in Hd. exact Hd.
Qed.

Lemma init_address (i2c : B) (address : Z) (s0 : QMC5883L) :
  __init__ i2c address = (inr tt, s0) -> _address s0 = address.
Proof.
  intros Hinit. apply init_returns in Hinit. destruct Hinit as [_ ->].
  rewrite apply_defaults_snd. unfold defaults_applied.
  rewrite !setter_legal_address by reflexivity.
  apply reset_done_address.
Qed.

Lemma after_read_history (r : Z) (n : nat) (s : QMC5883L) :
  history (after_read r n s) =
  history s ++ [StepEvent (EvRead (_address s) r n (read_data r n s))].
Proof.
  unfold after_read, read_data, i2c_readfrom_mem.
  destruct (readfrom_mem (_i2c s) (_address s) r n); reflexivity.
Qed.

Lemma CBits_set_history (c : CBits) (v : Z) (s : QMC5883L) :
  history (snd (CBits_set c v s)) =
  history s ++
  [StepEvent (EvRead (_address s) (register_address c) 1
                [read_byte (register_address c) s]);
   StepEvent (EvWrite (_address s) (register_address c)
                [CBits_encode c (read_byte (register_address c) s) v])].
Proof.
  rewrite CBits_set_run. simpl.
  rewrite after_read_history, after_read_address, read_data_one, <- app_assoc.
  reflexivity.
Qed.

Lemma field_range_set_history (v : Z) (s : QMC5883L) :
  tuple_contains field_range_values v = true ->
  history (snd (field_range_set v s)) =
  history s ++
  [StepResolution (if v =? FIELDRANGE_8G then 3000 else 12000);
   StepEvent (EvRead (_address s) _REG_OPERATION_MODE 1
                [read_byte _REG_OPERATION_MODE s]);
   StepEvent (EvWrite (_address s) _REG_OPERATION_MODE
                [CBits_encode _field_range (read_byte _REG_OPERATION_MODE s) v])].
Proof.
  intros Hv.
  change (field_range_set v s) with (setter FieldRange v s).
  rewrite (setter_legal FieldRange v s Hv), CBits_set_history.
  destruct (prepared_i2c FieldRange v s) as (_ & Ha & _).
  rewrite read_byte_prepared, Ha. cbn [cbits_of register_address _field_range].
  unfold prepared, FIELDRANGE_8G.
  destruct (v =? 1); cbn [snd set_resolution history]; rewrite <- app_assoc;
    reflexivity.
Qed.


(** ** The properties of the driver *)

(** C1: for each of the four settings and every legal code of it, setting
    the code and then getting the setting returns the named value that the
    enumeration table of the specification gives for the code, on a sensor
    whose operation-mode register holds what is written to it. *)
Theorem set_get_roundtrip (k : setting) (code : Z) (s : QMC5883L) :
  register_holds _REG_OPERATION_MODE ->
  tuple_contains (legal_values k) code = true ->
  exists name,
    spec_name k code = Some name /\
    fst ((setter k code ;;; getter k) s) = inr name.
Proof.
  intros Hreg Hlegal.
  destruct (legal_value_name k code Hlegal) as (name & Hspec & Hget).
  exists name. split; [exact Hspec |].
  rewrite set_get_name by assumption. exact Hget.
Qed.

(** C2: a setter called with a value outside the enumeration of its
    setting raises [ValueError] and leaves the whole object as it was:
    resolution, sensor and trace, so no transaction was issued; called with
    a legal code it returns normally. *)
Theorem invalid_setting_rejected (k : setting) (v : Z) (s : QMC5883L) :
  (tuple_contains (legal_values k) v = false ->
   exists msg, setter k v s = (inl (ValueError msg), s)) /\
  (tuple_contains (legal_values k) v = true ->
   fst (setter k v s) = inr tt).
Proof.
  split.
  - apply setter_illegal.
  - apply setter_legal_ok.
Qed.

(** C3: after a construction that succeeded and any sequence of public
    operations that all returned, the resolution is the one paired with the
    field-range code written last: 3000 for 8G, 12000 for 2G.  A
    field-range set that returns makes three steps, in this order: the
    assignment of the resolution paired with the code, the read of the
    operation-mode register, and the write of the merged byte, whose
    field-range bits are the code; the write is the last step.  The bus
    sees nothing before the assignment, and the resolution that the write
    finds is the new one. *)
Theorem resolution_tracks_field_range
  (i2c : B) (address : Z) (ops : list op) (s0 s : QMC5883L) :
  __init__ i2c address = (inr tt, s0) ->
  run_ops ops s0 = Some s ->
  (exists code,
     code = last_field_range FIELDRANGE_2G ops /\
     In code field_range_values /\
     resolution s = Some (if code =? FIELDRANGE_8G then 3000 else 12000)) /\
  (forall (v : Z) (s1 s2 : QMC5883L),
     field_range_set v s1 = (inr tt, s2) ->
     exists mid b,
       set_resolution (if v =? FIELDRANGE_8G then 3000 else 12000) s1 = (inr tt, mid) /\
       trace mid = trace s1 /\
       CBits_set _field_range v mid = (inr tt, s2) /\
       resolution s2 = resolution mid /\
       trace s2 =
       trace s1 ++
       [EvRead (_address s1) _REG_OPERATION_MODE 1 [b];
        EvWrite (_address s1) _REG_OPERATION_MODE [CBits_encode _field_range b v]] /\
       CBits_decode _field_range (CBits_encode _field_range b v) = v /\
       history s2 =
       history s1 ++
       [StepResolution (if v =? FIELDRANGE_8G then 3000 else 12000);
        StepEvent (EvRead (_address s1) _REG_OPERATION_MODE 1 [b]);
        StepEvent (EvWrite (_address s1) _REG_OPERATION_MODE
                     [CBits_encode _field_range b v])]).
Proof.
  intros Hinit Hrun. split.
  - apply init_returns in Hinit. destruct Hinit as [_ ->].
    destruct (apply_defaults_run (reset_done i2c address)) as (_ & Hres & _).
    assert (Hcur : In FIELDRANGE_2G field_range_values) by (left; reflexivity).
    destruct (run_ops_resolution ops FIELDRANGE_2G _ s Hcur Hres Hrun)
      as [Hin Hfinal].
    exists (last_field_range FIELDRANGE_2G ops).
    split; [reflexivity |]. split; [exact Hin | exact Hfinal].
  - intros v s1 s2 Hset.
    assert (Hv : tuple_contains (legal_values FieldRange) v = true)
      by (apply (setter_returns_legal FieldRange v s1 s2 tt); exact Hset).
    pose proof (field_range_set_history v s1 Hv) as Hhist.
    rewrite Hset in Hhist. cbn [snd] in Hhist.
    change (field_range_set v s1) with (setter FieldRange v s1) in Hset.
    pose proof (setter_legal FieldRange v s1 Hv) as Hrun1.
    rewrite Hset in Hrun1. cbn [cbits_of] in Hrun1.
    exists (prepared FieldRange v s1), (read_byte _REG_OPERATION_MODE s1).
    split; [unfold prepared, FIELDRANGE_8G; destruct (v =? 1); reflexivity |].
    split; [apply prepared_i2c |].
    split; [symmetry; exact Hrun1 |].
    split.
    + replace s2 with (snd (CBits_set _field_range v (prepared FieldRange v s1)))
        by (rewrite <- Hrun1; reflexivity).
      apply CBits_set_resolution.
    + split.
      * pose proof (setter_legal_trace FieldRange v s1 Hv) as Ht.
        change (setter FieldRange v s1) with (field_range_set v s1) in Ht.
        change (setter FieldRange v s1) with (field_range_set v s1) in Hset.
        rewrite Hset in Ht. exact Ht.
      * split; [| exact Hhist].
        apply CBits_decode_encode_same; try (simpl; lia).
        apply (legal_value_width FieldRange). exact Hv.
Qed.

Lemma truediv_quotient (x r : Z) : r <> 0 -> truediv x r = inr (quotient x r).
Proof.
  intros H. unfold truediv. destruct (Z.eqb_spec r 0); [contradiction | reflexivity].
Qed.


(** C5 (amended): with the sensor first found ready after [n] polls that
    found it not ready, and fuel for more than [n] polls, the magnetic read
    returns.  After the status read that found the sensor ready it issues
    exactly one read of the measurement block: 9 bytes at register 0x00,
    the size of the layout [<hhhBh].  The first six bytes are the three
    little-endian signed axes, which the result holds divided by the
    resolution; the last three bytes do not reach the result. *)
Theorem magnetic_reads_block_once (n fuel : nat) (res : Z) (s : QMC5883L) :
  first_ready_at n s -> (n < fuel)%nat ->
  resolution s = Some res -> res <> 0 ->
  exists s' b b0 b1 b2 b3 b4 b5 b6 b7 b8 mx my mz,
    magnetic fuel s = Some (inr (mx, my, mz), s') /\
    trace s' =
    trace s ++ idle_events n s ++
    [EvRead (_address s) _REG_STATUS 1 [b];
     EvRead (_address s) 0x00 9 [b0; b1; b2; b3; b4; b5; b6; b7; b8]] /\
    status_ready [b] = true /\
    count_events is_measure_read (added (trace s) (trace s')) = 1%nat /\
    calcsize native (format _measures) = Some 9%nat /\
    truediv (decode_field LittleEndian fmt_h [b0; b1]) res = inr mx /\
    truediv (decode_field LittleEndian fmt_h [b2; b3]) res = inr my /\
    truediv (decode_field LittleEndian fmt_h [b4; b5]) res = inr mz.
Proof.
  intros Hfirst Hfuel Hres Hnz.
  destruct (magnetic_returns n fuel res s Hfirst Hfuel Hres Hnz)
    as (x & y & z & Hax & Hmag).
  set (s1 := after_read _REG_STATUS 1 (after_polls n s)) in *.
  destruct (unpack_measures (read_data 0x00 9 s1) (read_data_length _ _ _))
    as (b0 & b1 & b2 & b3 & b4 & b5 & b6 & b7 & b8 & Hdata & Hun).
  unfold axes_of in Hax. rewrite Hun in Hax. injection Hax as <- <- <-.
  exists (after_read 0x00 9 s1), (read_byte _REG_STATUS (after_polls n s)),
    b0, b1, b2, b3, b4, b5, b6, b7, b8.
  do 3 eexists.
  split; [exact Hmag |].
  split; [rewrite <- Hdata; apply magnetic_trace |].
  split; [rewrite <- is_ready_status; apply Hfirst |].
  split.
  - subst s1. rewrite magnetic_trace, added_app.
    unfold count_events. rewrite filter_app, length_app.
    destruct (idle_events_counts n s) as (_ & Hm & _).
    unfold count_events in Hm. rewrite Hm. reflexivity.
  - split; [apply calcsize_measures |].
    repeat split; apply truediv_quotient; exact Hnz.
Qed.

(** C6: when the two bytes read at 0x0D do not decode to 0xFF, [__init__]
    raises [RuntimeError] after that single read and writes nothing, the
    sensor being as the read left it; when
    they do, it writes 0x01 to the reset register and then runs the public
    setters for oversample 128, field range 2G, data rate 200 Hz and
    continuous mode, in this order. *)
Theorem init_identity_check (i2c : B) (address : Z) :
  (identity_of i2c address <> 0xFF ->
   exists s,
     __init__ i2c address =
     (inl (RuntimeError "Failed to find the QMC5883L!"), s) /\
     trace s =
     [EvRead address _REG_WHOAMI 2 (read_data _REG_WHOAMI 2 (fresh i2c address))] /\
     count_events is_write (trace s) = 0%nat /\
     _i2c s = snd (readfrom_mem i2c address _REG_WHOAMI 2) /\
     resolution s = None) /\
  (identity_of i2c address = 0xFF ->
   __init__ i2c address =
   (oversample_set OVERSAMPLE_128 ;;;
    field_range_set FIELDRANGE_2G ;;;
    output_data_rate_set OUTPUT_DATA_RATE_200 ;;;
    mode_control_set MODE_CONTINUOUS) (reset_done i2c address) /\
   uint_of native (bytes_of native 2 0x01) = 0x01 /\
   exists s b1 b2 b3 b4,
     __init__ i2c address = (inr tt, s) /\
     resolution s = Some 12000 /\
     trace s =
     [EvRead address _REG_WHOAMI 2 (read_data _REG_WHOAMI 2 (fresh i2c address));
      EvWrite address _REG_SET_RESET (bytes_of native 2 0x01);
      EvRead address _REG_OPERATION_MODE 1 [b1];
      EvWrite address _REG_OPERATION_MODE [CBits_encode _oversample b1 OVERSAMPLE_128];
      EvRead address _REG_OPERATION_MODE 1 [b2];
      EvWrite address _REG_OPERATION_MODE [CBits_encode _field_range b2 FIELDRANGE_2G];
      EvRead address _REG_OPERATION_MODE 1 [b3];
      EvWrite address _REG_OPERATION_MODE
        [CBits_encode _output_data_rate b3 OUTPUT_DATA_RATE_200];
      EvRead address _REG_OPERATION_MODE 1 [b4];
      EvWrite address _REG_OPERATION_MODE
        [CBits_encode _mode_control b4 MODE_CONTINUOUS]]).
Proof.
  split; intros Hid.
  - exists (after_read _REG_WHOAMI 2 (fresh i2c address)).
    split; [apply init_not_found; exact Hid |].
    rewrite after_read_trace, after_read_resolution, after_read_i2c. simpl. auto.
  - split; [apply init_found; exact Hid |].
    split; [destruct native; reflexivity |].
    destruct (apply_defaults_run (reset_done i2c address))
      as (Hok & Hres & b1 & b2 & b3 & b4 & Ht).
    exists (snd (apply_defaults (reset_done i2c address))), b1, b2, b3, b4.
    split.
    + rewrite (init_found _ _ Hid).
      destruct (apply_defaults (reset_done i2c address)) as [r s1].
      simpl in *. rewrite Hok. reflexivity.
    + split; [exact Hres |].
      rewrite Ht. unfold reset_done. simpl.
      rewrite after_read_trace, after_read_address. reflexivity.
Qed.

(** C7: for every byte of the operation-mode register and every legal
    code of one setting, the byte merged for that setting decodes to the
    same value as before in each of the other three fields; the byte a
    setter writes is that merged byte; and on a register that holds what is
    written, a setting that was set still reads back as it was set after
    another setting has been set. *)
Theorem set_isolates_other_fields (k k' : setting) (byte v : Z) :
  k <> k' ->
  tuple_contains (legal_values k) v = true ->
  CBits_decode (cbits_of k') (CBits_encode (cbits_of k) byte v) =
  CBits_decode (cbits_of k') byte /\
  (forall s : QMC5883L,
     exists b,
       trace (snd (setter k v s)) =
       trace s ++
       [EvRead (_address s) _REG_OPERATION_MODE 1 [b];
        EvWrite (_address s) _REG_OPERATION_MODE [CBits_encode (cbits_of k) b v]] /\
       CBits_decode (cbits_of k') (CBits_encode (cbits_of k) b v) =
       CBits_decode (cbits_of k') b) /\
  (forall (s : QMC5883L) (v' : Z),
     register_holds _REG_OPERATION_MODE ->
     tuple_contains (legal_values k') v' = true ->
     fst ((setter k' v' ;;; setter k v ;;; getter k') s) =
     fst ((setter k' v' ;;; getter k') s) /\
     exists name,
       spec_name k' v' = Some name /\
       fst ((setter k' v' ;;; getter k') s) = inr name).
Proof.
  intros Hne Hv.
  assert (Hfield : forall b,
             CBits_decode (cbits_of k') (CBits_encode (cbits_of k) b v) =
             CBits_decode (cbits_of k') b).
  { intros b.
    destruct (cbits_of_fits k) as (Hw & Ho & _).
    destruct (cbits_of_fits k') as (Hw' & Ho' & _).
    apply CBits_decode_encode_other; try assumption.
    - apply legal_value_width, Hv.
    - apply distinct_fields_disjoint, Hne. }
  split; [apply Hfield |]. split.
  - intros s. exists (read_byte _REG_OPERATION_MODE s).
    split; [apply setter_legal_trace, Hv | apply Hfield].
  - intros s v' Hreg Hv'.
    destruct (legal_value_name k' v' Hv') as (name & Hspec & Hget).
    rewrite set_set_get_name, set_get_name by assumption.
    split; [reflexivity |].
    exists name. split; assumption.
Qed.

(** C8: a magnetic read that ends has added to the trace only sleeps and
    status reads that found bit 2 of register 0x06 clear, then a status
    read that found it set, then the read of the measurement block; no
    read of the block comes earlier, and the monitor that tracks the last
    status read accepts the added events. *)
Theorem measure_read_follows_ready
  (fuel : nat) (s s' : QMC5883L) (out : exn + (Q * Q * Q)) :
  magnetic fuel s = Some (out, s') ->
  exists n b data,
    added (trace s) (trace s') =
    idle_events n s ++
    [EvRead (_address s) _REG_STATUS 1 [b]; EvRead (_address s) 0x00 9 data] /\
    forallb is_idle_poll (idle_events n s) = true /\
    count_events is_measure_read (idle_events n s) = 0%nat /\
    CBits_decode _data_ready_register b = 1 /\
    forall ready, ready_guarded ready (added (trace s) (trace s')) = true.
Proof.
  intros Hmag. apply magnetic_inversion in Hmag.
  destruct Hmag as (n & x & y & z & Hn & [Hidle Hready] & -> & _ & _).
  exists n, (read_byte _REG_STATUS (after_polls n s)),
    (read_data 0x00 9 (after_read _REG_STATUS 1 (after_polls n s))).
  rewrite magnetic_trace, added_app.
  rewrite is_ready_status in Hready.
  pose proof (idle_events_idle n s Hidle) as Hall.
  split; [reflexivity |]. split; [exact Hall |].
  split; [apply idle_events_counts |].
  split.
  - unfold status_ready in Hready. apply Z.eqb_eq. exact Hready.
  - intros ready. apply ready_guarded_after_idle; assumption.
Qed.

(** C9: when the sensor is first found ready after [n] unsuccessful polls,
    the magnetic read ends for every fuel above [n], after [n + 1] status
    reads, and is still polling when the fuel is [n] or less; when the
    sensor is never found ready, the read is still polling whatever the
    fuel: it yields neither a value nor an exception. *)
Theorem poll_has_no_timeout (s : QMC5883L) :
  (forall n, first_ready_at n s ->
     (forall fuel, (n < fuel)%nat ->
        exists out s',
          magnetic fuel s = Some (out, s') /\
          count_events is_status_read (added (trace s) (trace s')) = S n) /\
     (forall fuel, (fuel <= n)%nat -> magnetic fuel s = None)) /\
  (never_ready s -> forall fuel, magnetic fuel s = None).
Proof.
  split.
  - intros n Hfirst. split.
    + intros fuel Hfuel.
      destruct (read_measures_outcome (after_read _REG_STATUS 1 (after_polls n s)))
        as (x & y & z & _ & Hrun).
      eexists. eexists. split.
      * unfold magnetic. rewrite (wait_returns n fuel s Hfirst Hfuel), Hrun.
        reflexivity.
      * rewrite magnetic_trace, added_app.
        unfold count_events. rewrite filter_app, length_app.
        destruct (idle_events_counts n s) as (Hc & _).
        unfold count_events in Hc. rewrite Hc. simpl. lia.
    + intros fuel Hfuel. unfold magnetic.
      destruct (wait_data_ready fuel s) as [[r s1] |] eqn:W; [| reflexivity].
      apply wait_inversion in W.
      destruct W as (m & Hm & [_ Hready] & _).
      destruct Hfirst as [Hidle _].
      rewrite Hidle in Hready by lia. discriminate Hready.
  - intros Hnever fuel. unfold magnetic.
    rewrite (wait_never fuel s Hnever). reflexivity.
Qed.

(** C10: when the two bits of the field read as 2 or 3, the field-range
    and the mode getters end in [IndexError]; the oversample and
    data-rate getters return one of their four names whatever the register
    reads. *)
Theorem narrow_getters_raise_index_error (s : QMC5883L) :
  (forall k, k = FieldRange \/ k = Mode ->
     fst (CBits_get (cbits_of k) s) = inr 2 \/
     fst (CBits_get (cbits_of k) s) = inr 3 ->
     fst (getter k s) = inl IndexError) /\
  (forall k, k = Oversample \/ k = DataRate ->
     exists name, fst (getter k s) = inr name /\ In name (names_of k)).
Proof.
  split.
  - intros k Hk Hraw.
    destruct Hraw as [Hraw | Hraw];
      rewrite (getter_after_CBits_get k s _ Hraw);
      destruct Hk as [-> | ->]; reflexivity.
  - intros k Hk. rewrite getter_run. cbn [fst].
    pose proof (CBits_decode_range (cbits_of k)
                  (read_byte _REG_OPERATION_MODE s)) as Hrange.
    set (i := CBits_decode (cbits_of k) (read_byte _REG_OPERATION_MODE s)) in *.
    assert (Hi : i = 0 \/ i = 1 \/ i = 2 \/ i = 3)
      by (destruct Hk as [-> | ->]; simpl in Hrange; lia).
    clearbody i.
    destruct Hk as [-> | ->];
      destruct Hi as [-> | [-> | [-> | ->]]];
      eexists; (split; [reflexivity | simpl; tauto]).
Qed.

(** ** Bit fields, continued *)

Lemma value_bit_outside_window (c : CBits) (v m : Z) :
  0 <= num_bits c -> 0 <= v < 2 ^ num_bits c ->
  (0 <=? m - start_bit c) && (m - start_bit c <? num_bits c) = false ->
  Z.testbit v (m - start_bit c) = false.
Proof.
  intros Hw Hv Hout. apply testbit_value_window with (w := num_bits c);
    [exact Hw | exact Hv |].
  apply andb_false_iff in Hout. apply orb_true_iff.
  destruct Hout as [H | H];
    [left; apply Z.ltb_lt; apply Z.leb_gt in H
    | right; apply Z.leb_le; apply Z.ltb_ge in H]; lia.
Qed.

Lemma CBits_encode_overwrite (c : CBits) (b v1 v2 : Z) :
  0 <= num_bits c -> 0 <= start_bit c -> 0 <= v1 < 2 ^ num_bits c ->
  CBits_encode c (CBits_encode c b v1) v2 = CBits_encode c b v2.
Proof.
  intros Hw Ho Hv1. apply Z.bits_inj'. intros m Hm.
  rewrite !testbit_encode by assumption.
  destruct ((0 <=? m - start_bit c) && (m - start_bit c <? num_bits c)) eqn:W.
  - cbn [negb]. rewrite !andb_false_r. reflexivity.
  - rewrite (value_bit_outside_window c v1 m Hw Hv1 W).
    cbn [negb]. rewrite orb_false_r, !andb_true_r. reflexivity.
Qed.

Lemma CBits_encode_comm (c c' : CBits) (b v v' : Z) :
  0 <= num_bits c -> 0 <= start_bit c ->
  0 <= num_bits c' -> 0 <= start_bit c' ->
  0 <= v < 2 ^ num_bits c -> 0 <= v' < 2 ^ num_bits c' ->
  start_bit c' + num_bits c' <= start_bit c \/
  start_bit c + num_bits c <= start_bit c' ->
  CBits_encode c (CBits_encode c' b v') v =
  CBits_encode c' (CBits_encode c b v) v'.
Proof.
  intros Hw Ho Hw' Ho' Hv Hv' Hdis. apply Z.bits_inj'. intros m Hm.
  rewrite !testbit_encode by assumption.
  destruct ((0 <=? m - start_bit c) && (m - start_bit c <? num_bits c)) eqn:W;
    destruct ((0 <=? m - start_bit c') && (m - start_bit c' <? num_bits c')) eqn:W'.
  - exfalso. apply andb_true_iff in W, W'.
    destruct W as [W1 W2], W' as [W1' W2'].
    apply Z.leb_le in W1, W1'. apply Z.ltb_lt in W2, W2'. lia.
  - rewrite (value_bit_outside_window c' v' m Hw' Hv' W').
    cbn [negb]. rewrite !andb_false_r, !andb_true_r, !orb_false_r.
    reflexivity.
  - rewrite (value_bit_outside_window c v m Hw Hv W).
    cbn [negb]. rewrite !andb_false_r, !andb_true_r, !orb_false_r.
    reflexivity.
  - rewrite (value_bit_outside_window c v m Hw Hv W),
      (value_bit_outside_window c' v' m Hw' Hv' W').
    cbn [negb]. rewrite !andb_true_r, !orb_false_r. reflexivity.
Qed.

Lemma octet_of_four_fields (b : Z) :
  0 <= b < 256 ->
  b = 64 * CBits_decode _oversample b + 16 * CBits_decode _field_range b
      + 4 * CBits_decode _output_data_rate b + CBits_decode _mode_control b.
Proof.
  intros Hb. unfold CBits_decode. cbn [num_bits start_bit _oversample
    _field_range _output_data_rate _mode_control].
  rewrite !field_mask_ones, !Z.land_ones, !Z.shiftr_div_pow2 by lia.
  change (2 ^ 6) with 64. change (2 ^ 4) with 16. change (2 ^ 2) with 4.
  change (2 ^ 0) with 1.
  Z.div_mod_to_equations. lia.
Qed.

(** ** Setters in sequence *)

Lemma setter_then_read_byte (k : setting) (v : Z) (s : QMC5883L) :
  register_holds _REG_OPERATION_MODE ->
  tuple_contains (legal_values k) v = true ->
  read_byte _REG_OPERATION_MODE (snd (setter k v s)) =
  CBits_encode (cbits_of k) (read_byte _REG_OPERATION_MODE s) v.
Proof.
  intros Hreg Hv. rewrite setter_legal by exact Hv.
  pose proof (read_byte_after_set (cbits_of k) v (prepared k v s)) as R.
  rewrite cbits_of_register in R. rewrite R.
  - rewrite read_byte_prepared. reflexivity.
  - apply cbits_of_fits.
  - apply legal_value_width, Hv.
  - exact Hreg.
Qed.

Lemma getter_by_read_byte (k : setting) (s1 s2 : QMC5883L) :
  read_byte _REG_OPERATION_MODE s1 = read_byte _REG_OPERATION_MODE s2 ->
  fst (getter k s1) = fst (getter k s2).
Proof. intros H. rewrite !getter_run. simpl. rewrite H. reflexivity. Qed.

(** A second set of the same setting leaves the register, the resolution
    and what every getter returns as the second set alone would have left
    them, on a register that holds what is written. *)
Theorem later_set_overwrites (k : setting) (v1 v2 : Z) (s : QMC5883L) :
  register_holds _REG_OPERATION_MODE ->
  tuple_contains (legal_values k) v1 = true ->
  tuple_contains (legal_values k) v2 = true ->
  read_byte _REG_OPERATION_MODE (snd ((setter k v1 ;;; setter k v2) s)) =
  read_byte _REG_OPERATION_MODE (snd (setter k v2 s)) /\
  resolution (snd ((setter k v1 ;;; setter k v2) s)) =
  resolution (snd (setter k v2 s)) /\
  forall k',
    fst (getter k' (snd ((setter k v1 ;;; setter k v2) s))) =
    fst (getter k' (snd (setter k v2 s))).
Proof.
  intros Hreg Hv1 Hv2.
  rewrite (setter_seq_snd k v1 _ s Hv1).
  assert (Hbyte :
            read_byte _REG_OPERATION_MODE (snd (setter k v2 (snd (setter k v1 s)))) =
            read_byte _REG_OPERATION_MODE (snd (setter k v2 s))).
  { rewrite !setter_then_read_byte by assumption.
    destruct (cbits_of_fits k) as (Hw & Ho & _).
    apply CBits_encode_overwrite; try assumption.
    apply legal_value_width, Hv1. }
  split; [exact Hbyte |]. split.
  - rewrite !(setter_legal_resolution k v2) by exact Hv2.
    destruct k; try reflexivity;
      apply (setter_legal_resolution _ v1 s Hv1).
  - intros k'. apply getter_by_read_byte, Hbyte.
Qed.

(** Sets of two different settings leave the same register byte, the same
    resolution and the same getter results in either order, on a register
    that holds what is written. *)
Theorem setters_commute (k k' : setting) (v v' : Z) (s : QMC5883L) :
  register_holds _REG_OPERATION_MODE ->
  k <> k' ->
  tuple_contains (legal_values k) v = true ->
  tuple_contains (legal_values k') v' = true ->
  read_byte _REG_OPERATION_MODE (snd ((setter k v ;;; setter k' v') s)) =
  read_byte _REG_OPERATION_MODE (snd ((setter k' v' ;;; setter k v) s)) /\
  resolution (snd ((setter k v ;;; setter k' v') s)) =
  resolution (snd ((setter k' v' ;;; setter k v) s)) /\
  forall k'',
    fst (getter k'' (snd ((setter k v ;;; setter k' v') s))) =
    fst (getter k'' (snd ((setter k' v' ;;; setter k v) s))).
Proof.
  intros Hreg Hne Hv Hv'.
  rewrite (setter_seq_snd k v _ s Hv), (setter_seq_snd k' v' _ s Hv').
  assert (Hbyte :
            read_byte _REG_OPERATION_MODE (snd (setter k' v' (snd (setter k v s)))) =
            read_byte _REG_OPERATION_MODE (snd (setter k v (snd (setter k' v' s))))).
  { rewrite !setter_then_read_byte by assumption.
    destruct (cbits_of_fits k) as (Hw & Ho & _).
    destruct (cbits_of_fits k') as (Hw' & Ho' & _).
    apply CBits_encode_comm; try assumption.
    - apply legal_value_width, Hv'.
    - apply legal_value_width, Hv.
    - destruct (distinct_fields_disjoint k k' Hne); [right | left]; assumption. }
  split; [exact Hbyte |]. split.
  - destruct k, k'; try (contradiction Hne; reflexivity);
      repeat (rewrite setter_legal_resolution by assumption; cbv iota);
      reflexivity.
  - intros k''. apply getter_by_read_byte, Hbyte.
Qed.

(** ** The state that construction leaves *)

Lemma default_byte (b : Z) :
  0 <= b < 256 ->
  CBits_encode _mode_control
    (CBits_encode _output_data_rate
       (CBits_encode _field_range
          (CBits_encode _oversample b OVERSAMPLE_128) FIELDRANGE_2G)
       OUTPUT_DATA_RATE_200) MODE_CONTINUOUS = 0x8D.
Proof.
  intros Hb. unfold_codes.
  set (e1 := CBits_encode _oversample b 2).
  set (e2 := CBits_encode _field_range e1 0).
  set (e3 := CBits_encode _output_data_rate e2 3).
  set (e4 := CBits_encode _mode_control e3 1).
  assert (H1 : 0 <= e1 < 256) by (apply CBits_encode_octet; simpl; lia).
  assert (H2 : 0 <= e2 < 256) by (apply CBits_encode_octet; simpl; lia).
  assert (H3 : 0 <= e3 < 256) by (apply CBits_encode_octet; simpl; lia).
  assert (H4 : 0 <= e4 < 256) by (apply CBits_encode_octet; simpl; lia).
  assert (Dm : CBits_decode _mode_control e4 = 1)
    by (apply CBits_decode_encode_same; simpl; lia).
  assert (Dr : CBits_decode _output_data_rate e4 = 3).
  { unfold e4.
    rewrite (CBits_decode_encode_other _mode_control _output_data_rate)
      by (simpl; lia).
    apply CBits_decode_encode_same; simpl; lia. }
  assert (Df : CBits_decode _field_range e4 = 0).
  { unfold e4, e3.
    rewrite (CBits_decode_encode_other _mode_control _field_range)
      by (simpl; lia).
    rewrite (CBits_decode_encode_other _output_data_rate _field_range)
      by (simpl; lia).
    apply CBits_decode_encode_same; simpl; lia. }
  assert (Do : CBits_decode _oversample e4 = 2).
  { unfold e4, e3, e2.
    rewrite (CBits_decode_encode_other _mode_control _oversample)
      by (simpl; lia).
    rewrite (CBits_decode_encode_other _output_data_rate _oversample)
      by (simpl; lia).
    rewrite (CBits_decode_encode_other _field_range _oversample)
      by (simpl; lia).
    apply CBits_decode_encode_same; simpl; lia. }
  rewrite (octet_of_four_fields e4 H4), Dm, Dr, Df, Do. reflexivity.
Qed.

Lemma defaults_applied_byte (s : QMC5883L) :
  register_holds _REG_OPERATION_MODE ->
  read_byte _REG_OPERATION_MODE (defaults_applied s) = 0x8D.
Proof.
  intros Hreg. unfold defaults_applied.
  rewrite !setter_then_read_byte by (exact Hreg || reflexivity).
  apply default_byte, read_byte_octet.
Qed.

Lemma defaults_applied_last_event (s : QMC5883L) :
  register_holds _REG_OPERATION_MODE ->
  last (trace (defaults_applied s)) EvSleep =
  EvWrite (_address s) _REG_OPERATION_MODE [0x8D].
Proof.
  intros Hreg. unfold defaults_applied.
  rewrite setter_legal_trace by reflexivity.
  rewrite !setter_legal_address by reflexivity.
  rewrite !setter_then_read_byte by (exact Hreg || reflexivity).
  cbn [cbits_of]. rewrite default_byte by apply read_byte_octet.
  change (?a :: ?b :: nil) with ([a] ++ [b]).
  rewrite app_assoc. apply last_last.
Qed.

(** A construction that succeeds on a register that holds what is written
    ends with the write of 0x8D to the operation-mode register, whatever
    the register held before; each getter then returns the name of its
    default, and the resolution is the one of 2G. *)
Theorem construction_leaves_defaults (i2c : B) (address : Z) (s0 : QMC5883L) :
  register_holds _REG_OPERATION_MODE ->
  __init__ i2c address = (inr tt, s0) ->
  last (trace s0) EvSleep = EvWrite address _REG_OPERATION_MODE [0x8D] /\
  read_byte _REG_OPERATION_MODE s0 = 0x8D /\
  fst (oversample_get s0) = inr "OVERSAMPLE_128"%string /\
  fst (field_range_get s0) = inr "FIELDRANGE_2G"%string /\
  fst (output_data_rate_get s0) = inr "OUTPUT_DATA_RATE_200"%string /\
  fst (mode_control_get s0) = inr "MODE_CONTINUOUS"%string /\
  resolution s0 = Some 12000.
Proof.
  intros Hreg Hinit. apply init_returns in Hinit. destruct Hinit as [_ ->].
  destruct (apply_defaults_run (reset_done i2c address)) as (_ & Hres & _).
  rewrite apply_defaults_snd in *.
  pose proof (defaults_applied_byte (reset_done i2c address) Hreg) as Hbyte.
  split.
  - rewrite defaults_applied_last_event, reset_done_address by exact Hreg.
    reflexivity.
  - split; [exact Hbyte |].
    change oversample_get with (getter Oversample).
    change field_range_get with (getter FieldRange).
    change output_data_rate_get with (getter DataRate).
    change mode_control_get with (getter Mode).
    rewrite !getter_run. cbn [fst]. rewrite Hbyte.
    repeat split; try reflexivity. exact Hres.
Qed.

(** ** What the operations leave alone *)

(** The resolution is changed by the field-range setter alone: the other
    three setters, whether they return or raise, every getter, whether it
    returns or raises, and every magnetic read that ends leave it as it
    was. *)
Theorem resolution_changed_by_field_range_only (s : QMC5883L) :
  (forall k v, k <> FieldRange -> resolution (snd (setter k v s)) = resolution s) /\
  (forall k, resolution (snd (getter k s)) = resolution s) /\
  (forall fuel out s',
     magnetic fuel s = Some (out, s') -> resolution s' = resolution s).
Proof.
  split; [| split].
  - intros k v Hk.
    destruct (tuple_contains (legal_values k) v) eqn:E.
    + rewrite (setter_legal_resolution k v s E).
      destruct k; try reflexivity. contradiction Hk; reflexivity.
    + destruct (setter_illegal k v s E) as [msg ->]. reflexivity.
  - intros k. apply getter_resolution.
  - intros fuel out s' Hmag. apply (magnetic_fields fuel s s' out Hmag).
Qed.

(** A getter, whether it returns a name or raises, issues one read of one
    byte at the operation-mode register and nothing else: no write, no
    sleep, the address and the resolution as they were. *)
Theorem getter_reads_once (k : setting) (s : QMC5883L) :
  exists b,
    trace (snd (getter k s)) =
    trace s ++ [EvRead (_address s) _REG_OPERATION_MODE 1 [b]] /\
    0 <= b < 256 /\
    fst (getter k s) = tuple_getitem (names_of k) (CBits_decode (cbits_of k) b) /\
    _address (snd (getter k s)) = _address s /\
    resolution (snd (getter k s)) = resolution s /\
    _i2c (snd (getter k s)) =
    snd (readfrom_mem (_i2c s) (_address s) _REG_OPERATION_MODE 1).
Proof.
  exists (read_byte _REG_OPERATION_MODE s).
  rewrite getter_run. cbn [fst snd].
  rewrite after_read_trace, after_read_address, after_read_resolution,
    after_read_i2c, read_data_one.
  repeat split; try reflexivity; apply read_byte_octet.
Qed.

Lemma idle_events_sleeps (n : nat) :
  forall s : QMC5883L, count_events is_sleep (idle_events n s) = n.
Proof.
  induction n as [| n IH]; intros s; [reflexivity |].
  unfold count_events in *. simpl. rewrite IH. reflexivity.
Qed.

(** A magnetic read that ends, in a value or in an exception, has written
    nothing: it added one sleep after each poll that found the sensor not
    ready, one status read more than sleeps, and one block read, at the
    address of the object. *)
Theorem magnetic_never_writes
  (fuel : nat) (s s' : QMC5883L) (out : exn + (Q * Q * Q)) :
  magnetic fuel s = Some (out, s') ->
  count_events is_write (added (trace s) (trace s')) = 0%nat /\
  _address s' = _address s /\
  exists n,
    (n < fuel)%nat /\
    count_events is_sleep (added (trace s) (trace s')) = n /\
    count_events is_status_read (added (trace s) (trace s')) = S n /\
    count_events is_measure_read (added (trace s) (trace s')) = 1%nat /\
    length (added (trace s) (trace s')) = (2 * n + 2)%nat.
Proof.
  intros Hmag.
  destruct (magnetic_fields fuel s s' out Hmag) as (Ha & _ & _).
  apply magnetic_inversion in Hmag.
  destruct Hmag as (n & x & y & z & Hn & _ & -> & _ & _).
  rewrite magnetic_trace, added_app.
  destruct (idle_events_counts n s) as (Hst & Hme & Hwr).
  pose proof (idle_events_sleeps n s) as Hsl.
  assert (Hlen : length (idle_events n s) = (2 * n)%nat).
  { clear. revert s. induction n as [| n IH]; intros s; [reflexivity |].
    simpl. rewrite IH. lia. }
  unfold count_events in *.
  rewrite !filter_app, !length_app, Hst, Hme, Hwr, Hsl, Hlen.
  split; [reflexivity |]. split; [exact Ha |].
  exists n. simpl. repeat split; lia.
Qed.

(** ** The layout of the operation-mode register *)

(** The four bit fields tile the operation-mode byte: an octet is the sum
    of its four decoded fields at their offsets, and four 2-bit codes put
    together decode to themselves. *)
Theorem operation_mode_is_four_fields :
  (forall b, 0 <= b < 256 ->
     b = 64 * CBits_decode _oversample b + 16 * CBits_decode _field_range b
         + 4 * CBits_decode _output_data_rate b + CBits_decode _mode_control b) /\
  (forall os fr dr md,
     0 <= os < 4 -> 0 <= fr < 4 -> 0 <= dr < 4 -> 0 <= md < 4 ->
     let b := 64 * os + 16 * fr + 4 * dr + md in
     0 <= b < 256 /\
     CBits_decode _oversample b = os /\ CBits_decode _field_range b = fr /\
     CBits_decode _output_data_rate b = dr /\ CBits_decode _mode_control b = md).
Proof.
  split; [apply octet_of_four_fields |].
  intros os fr dr md Hos Hfr Hdr Hmd b. split; [subst b; lia |].
  unfold CBits_decode. cbn [num_bits start_bit _oversample
    _field_range _output_data_rate _mode_control].
  rewrite !field_mask_ones, !Z.land_ones, !Z.shiftr_div_pow2 by lia.
  change (2 ^ 6) with 64. change (2 ^ 4) with 16. change (2 ^ 2) with 4.
  change (2 ^ 0) with 1. subst b.
  repeat split; Z.div_mod_to_equations; lia.
Qed.

(** ** The bus as a constructed driver uses it *)

(** Whatever sequence of returning operations follows a construction, the
    driver talks to its own address only, writes nothing but single octets
    to the operation-mode register, and reads nothing but that register,
    the status register and the 9-byte measurement block. *)
Theorem bus_use_after_construction
  (i2c : B) (address : Z) (ops : list op) (s0 s : QMC5883L) :
  __init__ i2c address = (inr tt, s0) ->
  run_ops ops s0 = Some s ->
  _address s = address /\
  forallb (bus_discipline address) (added (trace s0) (trace s)) = true.
Proof.
  intros Hinit Hrun.
  pose proof (init_address i2c address s0 Hinit) as Ha0.
  destruct (run_ops_discipline ops s0 s Hrun) as (Ha & t & Ht & Hd).
  split; [congruence |].
  rewrite Ht, added_app. rewrite Ha0 in Hd. exact Hd.
Qed.

(** After a construction that succeeded and any sequence of returning
    operations, a magnetic read that ends returns three values: it cannot
    raise, the resolution being 3000 or 12000. *)
Theorem magnetic_returns_values_after_construction
  (i2c : B) (address : Z) (ops : list op) (s0 s s' : QMC5883L)
  (fuel : nat) (out : exn + (Q * Q * Q)) :
  __init__ i2c address = (inr tt, s0) ->
  run_ops ops s0 = Some s ->
  magnetic fuel s = Some (out, s') ->
  (resolution s = Some 3000 \/ resolution s = Some 12000) /\
  exists mx my mz, out = inr (mx, my, mz).
Proof.
  intros Hinit Hrun Hmag.
  apply init_returns in Hinit. destruct Hinit as [_ ->].
  destruct (apply_defaults_run (reset_done i2c address)) as (_ & Hres & _).
  assert (Hcur : In FIELDRANGE_2G field_range_values) by (left; reflexivity).
  destruct (run_ops_resolution ops FIELDRANGE_2G _ s Hcur Hres Hrun)
    as [_ Hfinal].
  split.
  - rewrite Hfinal. unfold spec_resolution.
    destruct (_ =? 1); [left | right]; reflexivity.
  - apply magnetic_inversion in Hmag.
    destruct Hmag as (n & x & y & z & _ & _ & _ & _ & ->).
    rewrite Hfinal.
    pose proof (spec_resolution_nonzero (last_field_range FIELDRANGE_2G ops)) as Hnz.
    destruct (Z.eqb_spec (spec_resolution (last_field_range FIELDRANGE_2G ops)) 0);
      [contradiction |].
    do 3 eexists. reflexivity.
Qed.

End Driver.

(** ** The simulated sensor at work *)

Notation "m ;;; k" := (bind m (fun _ => k))
  (at level 61, right associativity).

(** A sensor that identifies itself, and holds the raw sample
    x = 6000, y = -6000, z = 3000. *)
Definition sim_sensor (ready_in : nat) : sim :=
  {| sim_regs :=
       [(0x0D, 0xFF); (0x00, 0x70); (0x01, 0x17); (0x02, 0x90); (0x03, 0xE8);
        (0x04, 0xB8); (0x05, 0x0B)];
     sim_ready_in := ready_in |}.

(** A device at the same address whose identity register reads zero. *)
Definition sim_stranger : sim := {| sim_regs := []; sim_ready_in := 0 |}.

(** The driver object constructed on the simulated sensor. *)
Definition sim_driver (ready_in : nat) : QMC5883L :=
  snd (__init__ LittleEndian (sim_sensor ready_in) 0x0D).

(** The driver object left by a magnetic read. *)
Definition sim_after_magnetic (fuel : nat) (s : @QMC5883L sim) : QMC5883L :=
  match magnetic LittleEndian fuel s with
  | Some (_, s') => s'
  | None => s
  end.

(** The driver object left by a sequence of operations. *)
Definition sim_after_ops (ops : list op) (s : @QMC5883L sim) : QMC5883L :=
  match run_ops LittleEndian ops s with
  | Some s' => s'
  | None => s
  end.

(** A driver object whose operation-mode register reads [byte]. *)
Definition sim_with_mode_register (byte : Z) : @QMC5883L sim :=
  {| _i2c := {| sim_regs := [(0x09, byte)]; sim_ready_in := 0 |};
     _address := 0x0D; resolution := Some 12000; trace := [];
     history := [] |}.

Lemma sim_register_holds (r : Z) : r <> 6 -> register_holds (B := sim) r.
Proof.
  intros Hr d a b Hb. simpl. unfold sim_byte.
  replace (r + 0) with r by lia.
  destruct (Z.eqb_spec r 6) as [E | _]; [contradiction |].
  simpl. rewrite Z.eqb_refl, Z.mod_mod, Z.mod_small by lia. reflexivity.
Qed.

Example sim_construction :
  __init__ LittleEndian (sim_sensor 0) 0x0D = (inr tt, sim_driver 0) /\
  resolution (sim_driver 0) = Some 12000 /\
  sim_lookup (sim_regs (_i2c (sim_driver 0))) 0x09 = 0x8D /\
  trace (sim_driver 0) =
  [EvRead 0x0D 0x0D 2 [0xFF; 0x00]; EvWrite 0x0D 0x0B [0x01; 0x00];
   EvRead 0x0D 0x09 1 [0x00]; EvWrite 0x0D 0x09 [0x80];
   EvRead 0x0D 0x09 1 [0x80]; EvWrite 0x0D 0x09 [0x80];
   EvRead 0x0D 0x09 1 [0x80]; EvWrite 0x0D 0x09 [0x8C];
   EvRead 0x0D 0x09 1 [0x8C]; EvWrite 0x0D 0x09 [0x8D]].
Proof. vm_compute. repeat split. Qed.

Example sim_getters :
  fst (oversample_get (sim_driver 0)) = inr "OVERSAMPLE_128"%string /\
  fst (field_range_get (sim_driver 0)) = inr "FIELDRANGE_2G"%string /\
  fst (output_data_rate_get (sim_driver 0)) = inr "OUTPUT_DATA_RATE_200"%string /\
  fst (mode_control_get (sim_driver 0)) = inr "MODE_CONTINUOUS"%string.
Proof. vm_compute. repeat split. Qed.

Example sim_magnetic_2G :
  option_map fst (magnetic LittleEndian 4 (sim_driver 2)) =
  Some (inr ((1 # 2)%Q, (- 1 # 2)%Q, (1 # 4)%Q)).
Proof. vm_compute. reflexivity. Qed.

Example sim_magnetic_8G :
  option_map fst
    (magnetic LittleEndian 4 (snd (field_range_set FIELDRANGE_8G (sim_driver 2)))) =
  Some (inr ((2 # 1)%Q, (- 2 # 1)%Q, (1 # 1)%Q)).
Proof. vm_compute. reflexivity. Qed.

Example sim_magnetic_short_of_fuel :
  magnetic LittleEndian 2 (sim_driver 2) = None.
Proof. vm_compute. reflexivity. Qed.

Lemma sim_polls_keep_registers (n : nat) :
  forall s : @QMC5883L sim,
    sim_regs (_i2c (after_polls n s)) = sim_regs (_i2c s).
Proof.
  induction n as [| n IH]; intros s; [reflexivity |].
  simpl. rewrite IH. reflexivity.
Qed.

Lemma sim_standby_never_ready (s : @QMC5883L sim) :
  sim_continuous (_i2c s) = false -> never_ready s.
Proof.
  intros Hmode j. unfold is_ready. simpl. unfold sim_byte, sim_continuous in *.
  simpl. rewrite sim_polls_keep_registers, Hmode. reflexivity.
Qed.

(** ** The properties at the simulated sensor *)

Lemma sim_first_ready_at_2 : first_ready_at 2 (sim_driver 2).
Proof.
  split.
  - intros [| [| j]] Hj; [vm_compute; reflexivity | vm_compute; reflexivity | lia].
  - vm_compute. reflexivity.
Qed.


Lemma set_get_roundtrip_witness :
  exists name,
    spec_name Oversample OVERSAMPLE_64 = Some name /\
    fst ((setter Oversample OVERSAMPLE_64 ;;; getter Oversample) (sim_driver 0))
    = inr name.
Proof.
  apply set_get_roundtrip.
  - apply sim_register_holds. discriminate.
  - reflexivity.
Defined.

Lemma invalid_setting_rejected_witness :
  (exists msg,
     setter FieldRange 2 (sim_driver 0) = (inl (ValueError msg), sim_driver 0)) /\
  fst (setter FieldRange FIELDRANGE_8G (sim_driver 0)) = inr tt.
Proof.
  split.
  - apply (proj1 (invalid_setting_rejected FieldRange 2 (sim_driver 0))).
    reflexivity.
  - apply (proj2 (invalid_setting_rejected FieldRange FIELDRANGE_8G (sim_driver 0))).
    reflexivity.
Defined.

Lemma resolution_tracks_field_range_witness :
  resolution
    (sim_after_ops
       [OpSet FieldRange FIELDRANGE_8G; OpGet Oversample; OpMagnetic 5;
        OpSet Mode MODE_STANDBY]
       (sim_driver 2)) = Some 3000 /\
  exists b,
    history (snd (field_range_set FIELDRANGE_8G (sim_driver 2))) =
    history (sim_driver 2) ++
    [StepResolution 3000;
     StepEvent (EvRead 0x0D _REG_OPERATION_MODE 1 [b]);
     StepEvent (EvWrite 0x0D _REG_OPERATION_MODE
                  [CBits_encode _field_range b FIELDRANGE_8G])].
Proof.
  destruct (resolution_tracks_field_range LittleEndian (sim_sensor 2) 0x0D
              [OpSet FieldRange FIELDRANGE_8G; OpGet Oversample; OpMagnetic 5;
               OpSet Mode MODE_STANDBY]
              (sim_driver 2)
              (sim_after_ops
                 [OpSet FieldRange FIELDRANGE_8G; OpGet Oversample; OpMagnetic 5;
                  OpSet Mode MODE_STANDBY]
                 (sim_driver 2)))
    as [[code (Hcode & _ & Hres)] Hset].
  - vm_compute. reflexivity.
  - vm_compute. reflexivity.
  - split; [rewrite Hres, Hcode; reflexivity |].
    destruct (Hset FIELDRANGE_8G (sim_driver 2)
                (snd (field_range_set FIELDRANGE_8G (sim_driver 2))))
      as (mid & b & _ & _ & _ & _ & _ & _ & Hhist).
    + vm_compute. reflexivity.
    + exists b. exact Hhist.
Defined.


(** C5 as stated fails: the read that the magnetic property issues at
    register 0x00 is of 9 bytes, not of 7. *)
Lemma measurement_block_is_not_7_bytes :
  exists out,
    magnetic LittleEndian 1 (sim_driver 0) =
    Some (out, sim_after_magnetic 1 (sim_driver 0)) /\
    added (trace (sim_driver 0)) (trace (sim_after_magnetic 1 (sim_driver 0))) =
    [EvRead 0x0D 0x06 1 [4];
     EvRead 0x0D 0x00 9 [0x70; 0x17; 0x90; 0xE8; 0xB8; 0x0B; 4; 0; 0]] /\
    count_events (is_block_read 7)
      (trace (sim_after_magnetic 1 (sim_driver 0))) = 0%nat /\
    count_events (is_block_read 9)
      (trace (sim_after_magnetic 1 (sim_driver 0))) = 1%nat /\
    calcsize LittleEndian (format _measures) <> Some 7%nat.
Proof.
  eexists. split; [vm_compute; reflexivity |].
  split; [vm_compute; reflexivity |].
  split; [vm_compute; reflexivity |].
  split; [vm_compute; reflexivity |].
  vm_compute. discriminate.
Defined.

Lemma magnetic_reads_block_once_witness :
  exists s' b b0 b1 b2 b3 b4 b5 b6 b7 b8 mx my mz,
    magnetic LittleEndian 4 (sim_driver 2) = Some (inr (mx, my, mz), s') /\
    trace s' =
    trace (sim_driver 2) ++ idle_events 2 (sim_driver 2) ++
    [EvRead (_address (sim_driver 2)) _REG_STATUS 1 [b];
     EvRead (_address (sim_driver 2)) 0x00 9 [b0; b1; b2; b3; b4; b5; b6; b7; b8]] /\
    status_ready [b] = true /\
    count_events is_measure_read (added (trace (sim_driver 2)) (trace s')) = 1%nat /\
    calcsize LittleEndian (format _measures) = Some 9%nat /\
    truediv (decode_field LittleEndian fmt_h [b0; b1]) 12000 = inr mx /\
    truediv (decode_field LittleEndian fmt_h [b2; b3]) 12000 = inr my /\
    truediv (decode_field LittleEndian fmt_h [b4; b5]) 12000 = inr mz.
Proof.
  apply (magnetic_reads_block_once LittleEndian 2 4 12000 (sim_driver 2)).
  - exact sim_first_ready_at_2.
  - lia.
  - vm_compute. reflexivity.
  - discriminate.
Defined.

Lemma init_identity_check_witness :
  (exists s,
     __init__ LittleEndian sim_stranger 0x0D =
     (inl (RuntimeError "Failed to find the QMC5883L!"), s) /\
     trace s = [EvRead 0x0D _REG_WHOAMI 2 [0; 0]] /\
     count_events is_write (trace s) = 0%nat /\
     _i2c s = sim_stranger /\
     resolution s = None) /\
  (exists s b1 b2 b3 b4,
     __init__ LittleEndian (sim_sensor 0) 0x0D = (inr tt, s) /\
     resolution s = Some 12000 /\
     trace s =
     [EvRead 0x0D _REG_WHOAMI 2 [0xFF; 0];
      EvWrite 0x0D _REG_SET_RESET [0x01; 0];
      EvRead 0x0D _REG_OPERATION_MODE 1 [b1];
      EvWrite 0x0D _REG_OPERATION_MODE [CBits_encode _oversample b1 OVERSAMPLE_128];
      EvRead 0x0D _REG_OPERATION_MODE 1 [b2];
      EvWrite 0x0D _REG_OPERATION_MODE [CBits_encode _field_range b2 FIELDRANGE_2G];
      EvRead 0x0D _REG_OPERATION_MODE 1 [b3];
      EvWrite 0x0D _REG_OPERATION_MODE
        [CBits_encode _output_data_rate b3 OUTPUT_DATA_RATE_200];
      EvRead 0x0D _REG_OPERATION_MODE 1 [b4];
      EvWrite 0x0D _REG_OPERATION_MODE
        [CBits_encode _mode_control b4 MODE_CONTINUOUS]]).
Proof.
  split.
  - assert (H : identity_of LittleEndian sim_stranger 0x0D <> 0xFF)
      by (vm_compute; discriminate).
    exact (proj1 (init_identity_check LittleEndian sim_stranger 0x0D) H).
  - destruct (proj2 (init_identity_check LittleEndian (sim_sensor 0) 0x0D))
      as (_ & _ & Hrun).
    + vm_compute. reflexivity.
    + exact Hrun.
Defined.

Lemma set_isolates_other_fields_witness :
  CBits_decode _oversample (CBits_encode _mode_control 0xA5 MODE_STANDBY) =
  CBits_decode _oversample 0xA5 /\
  fst ((setter Oversample OVERSAMPLE_64 ;;; setter Mode MODE_STANDBY ;;;
        getter Oversample) (sim_driver 0)) =
  fst ((setter Oversample OVERSAMPLE_64 ;;; getter Oversample) (sim_driver 0)).
Proof.
  destruct (set_isolates_other_fields (B := sim) Mode Oversample 0xA5 MODE_STANDBY)
    as (Hfield & _ & Hget).
  - discriminate.
  - reflexivity.
  - split; [exact Hfield |].
    apply (Hget (sim_driver 0) OVERSAMPLE_64).
    + apply sim_register_holds. discriminate.
    + reflexivity.
Defined.

Lemma measure_read_follows_ready_witness :
  exists n b data,
    added (trace (sim_driver 2)) (trace (sim_after_magnetic 4 (sim_driver 2))) =
    idle_events n (sim_driver 2) ++
    [EvRead 0x0D _REG_STATUS 1 [b]; EvRead 0x0D 0x00 9 data] /\
    forallb is_idle_poll (idle_events n (sim_driver 2)) = true /\
    count_events is_measure_read (idle_events n (sim_driver 2)) = 0%nat /\
    CBits_decode _data_ready_register b = 1 /\
    forall ready,
      ready_guarded ready
        (added (trace (sim_driver 2)) (trace (sim_after_magnetic 4 (sim_driver 2))))
      = true.
Proof.
  apply (measure_read_follows_ready LittleEndian 4 (sim_driver 2)
           (sim_after_magnetic 4 (sim_driver 2))
           (inr ((1 # 2)%Q, (- 1 # 2)%Q, (1 # 4)%Q))).
  vm_compute. reflexivity.
Defined.

Lemma poll_has_no_timeout_witness :
  (exists out s',
     magnetic LittleEndian 3 (sim_driver 2) = Some (out, s') /\
     count_events is_status_read (added (trace (sim_driver 2)) (trace s')) = 3%nat) /\
  magnetic LittleEndian 2 (sim_driver 2) = None /\
  (forall fuel,
     magnetic LittleEndian fuel
       (snd (mode_control_set MODE_STANDBY (sim_driver 2))) = None).
Proof.
  split; [| split].
  - destruct (proj1 (poll_has_no_timeout LittleEndian (sim_driver 2)) 2%nat
                sim_first_ready_at_2) as [Hends _].
    apply (Hends 3%nat). lia.
  - destruct (proj1 (poll_has_no_timeout LittleEndian (sim_driver 2)) 2%nat
                sim_first_ready_at_2) as [_ Hpolls].
    apply (Hpolls 2%nat). lia.
  - apply (proj2 (poll_has_no_timeout LittleEndian
                    (snd (mode_control_set MODE_STANDBY (sim_driver 2))))).
    apply sim_standby_never_ready. vm_compute. reflexivity.
Defined.

Lemma narrow_getters_raise_index_error_witness :
  fst (field_range_get (sim_with_mode_register 0x20)) = inl IndexError /\
  fst (mode_control_get (sim_with_mode_register 0x03)) = inl IndexError /\
  exists name,
    fst (oversample_get (sim_with_mode_register 0x20)) = inr name /\
    In name oversamples.
Proof.
  split; [| split].
  - apply (proj1 (narrow_getters_raise_index_error (sim_with_mode_register 0x20))
             FieldRange).
    + left. reflexivity.
    + left. reflexivity.
  - apply (proj1 (narrow_getters_raise_index_error (sim_with_mode_register 0x03))
             Mode).
    + right. reflexivity.
    + right. reflexivity.
  - apply (proj2 (narrow_getters_raise_index_error (sim_with_mode_register 0x20))
             Oversample).
    left. reflexivity.
Defined.

(** ** Further properties at the simulated sensor *)

Lemma later_set_overwrites_witness :
  read_byte _REG_OPERATION_MODE
    (snd ((setter Oversample OVERSAMPLE_64 ;;; setter Oversample OVERSAMPLE_512)
            (sim_driver 0))) =
  read_byte _REG_OPERATION_MODE (snd (setter Oversample OVERSAMPLE_512 (sim_driver 0))) /\
  resolution
    (snd ((setter Oversample OVERSAMPLE_64 ;;; setter Oversample OVERSAMPLE_512)
            (sim_driver 0))) =
  resolution (snd (setter Oversample OVERSAMPLE_512 (sim_driver 0))) /\
  forall k',
    fst (getter k'
           (snd ((setter Oversample OVERSAMPLE_64 ;;; setter Oversample OVERSAMPLE_512)
                   (sim_driver 0)))) =
    fst (getter k' (snd (setter Oversample OVERSAMPLE_512 (sim_driver 0)))).
Proof.
  apply later_set_overwrites.
  - apply sim_register_holds. discriminate.
  - reflexivity.
  - reflexivity.
Defined.

Lemma setters_commute_witness :
  read_byte _REG_OPERATION_MODE
    (snd ((setter FieldRange FIELDRANGE_8G ;;; setter Mode MODE_STANDBY)
            (sim_driver 0))) =
  read_byte _REG_OPERATION_MODE
    (snd ((setter Mode MODE_STANDBY ;;; setter FieldRange FIELDRANGE_8G)
            (sim_driver 0))) /\
  resolution
    (snd ((setter FieldRange FIELDRANGE_8G ;;; setter Mode MODE_STANDBY)
            (sim_driver 0))) =
  resolution
    (snd ((setter Mode MODE_STANDBY ;;; setter FieldRange FIELDRANGE_8G)
            (sim_driver 0))) /\
  forall k'',
    fst (getter k''
           (snd ((setter FieldRange FIELDRANGE_8G ;;; setter Mode MODE_STANDBY)
                   (sim_driver 0)))) =
    fst (getter k''
           (snd ((setter Mode MODE_STANDBY ;;; setter FieldRange FIELDRANGE_8G)
                   (sim_driver 0)))).
Proof.
  apply setters_commute.
  - apply sim_register_holds. discriminate.
  - discriminate.
  - reflexivity.
  - reflexivity.
Defined.

Lemma construction_leaves_defaults_witness :
  last (trace (sim_driver 0)) EvSleep = EvWrite 0x0D _REG_OPERATION_MODE [0x8D] /\
  read_byte _REG_OPERATION_MODE (sim_driver 0) = 0x8D /\
  fst (oversample_get (sim_driver 0)) = inr "OVERSAMPLE_128"%string /\
  fst (field_range_get (sim_driver 0)) = inr "FIELDRANGE_2G"%string /\
  fst (output_data_rate_get (sim_driver 0)) = inr "OUTPUT_DATA_RATE_200"%string /\
  fst (mode_control_get (sim_driver 0)) = inr "MODE_CONTINUOUS"%string /\
  resolution (sim_driver 0) = Some 12000.
Proof.
  apply (construction_leaves_defaults LittleEndian (sim_sensor 0) 0x0D).
  - apply sim_register_holds. discriminate.
  - vm_compute. reflexivity.
Defined.

Lemma resolution_changed_by_field_range_only_witness :
  resolution (snd (setter Mode MODE_STANDBY (sim_driver 1))) =
  resolution (sim_driver 1) /\
  resolution (snd (setter Oversample 7 (sim_driver 1))) =
  resolution (sim_driver 1) /\
  resolution (sim_after_magnetic 3 (sim_driver 1)) = resolution (sim_driver 1).
Proof.
  destruct (resolution_changed_by_field_range_only LittleEndian (sim_driver 1))
    as (Hset & _ & Hmag).
  split; [apply Hset; discriminate |].
  split; [apply Hset; discriminate |].
  apply (Hmag 3%nat (inr ((1 # 2)%Q, (- 1 # 2)%Q, (1 # 4)%Q))).
  vm_compute. reflexivity.
Defined.

Lemma magnetic_never_writes_witness :
  count_events is_write
    (added (trace (sim_driver 2)) (trace (sim_after_magnetic 4 (sim_driver 2))))
  = 0%nat /\
  _address (sim_after_magnetic 4 (sim_driver 2)) = _address (sim_driver 2) /\
  exists n,
    (n < 4)%nat /\
    count_events is_sleep
      (added (trace (sim_driver 2)) (trace (sim_after_magnetic 4 (sim_driver 2))))
    = n /\
    count_events is_status_read
      (added (trace (sim_driver 2)) (trace (sim_after_magnetic 4 (sim_driver 2))))
    = S n /\
    count_events is_measure_read
      (added (trace (sim_driver 2)) (trace (sim_after_magnetic 4 (sim_driver 2))))
    = 1%nat /\
    length
      (added (trace (sim_driver 2)) (trace (sim_after_magnetic 4 (sim_driver 2))))
    = (2 * n + 2)%nat.
Proof.
  apply (magnetic_never_writes LittleEndian 4 (sim_driver 2)
           (sim_after_magnetic 4 (sim_driver 2))
           (inr ((1 # 2)%Q, (- 1 # 2)%Q, (1 # 4)%Q))).
  vm_compute. reflexivity.
Defined.

Lemma operation_mode_is_four_fields_witness :
  0x8D = 64 * CBits_decode _oversample 0x8D + 16 * CBits_decode _field_range 0x8D
         + 4 * CBits_decode _output_data_rate 0x8D + CBits_decode _mode_control 0x8D /\
  (0 <= 64 * 2 + 16 * 0 + 4 * 3 + 1 < 256 /\
   CBits_decode _oversample (64 * 2 + 16 * 0 + 4 * 3 + 1) = 2 /\
   CBits_decode _field_range (64 * 2 + 16 * 0 + 4 * 3 + 1) = 0 /\
   CBits_decode _output_data_rate (64 * 2 + 16 * 0 + 4 * 3 + 1) = 3 /\
   CBits_decode _mode_control (64 * 2 + 16 * 0 + 4 * 3 + 1) = 1).
Proof.
  destruct operation_mode_is_four_fields as [Hsum Hfields].
  split.
  - apply Hsum. lia.
  - apply (Hfields 2 0 3 1); lia.
Defined.

Lemma bus_use_after_construction_witness :
  _address
    (sim_after_ops
       [OpSet FieldRange FIELDRANGE_8G; OpGet Mode; OpMagnetic 5;
        OpSet Oversample OVERSAMPLE_64]
       (sim_driver 2)) = 0x0D /\
  forallb (bus_discipline 0x0D)
    (added (trace (sim_driver 2))
       (trace
          (sim_after_ops
             [OpSet FieldRange FIELDRANGE_8G; OpGet Mode; OpMagnetic 5;
              OpSet Oversample OVERSAMPLE_64]
             (sim_driver 2)))) = true.
Proof.
  apply (bus_use_after_construction LittleEndian (sim_sensor 2) 0x0D
           [OpSet FieldRange FIELDRANGE_8G; OpGet Mode; OpMagnetic 5;
            OpSet Oversample OVERSAMPLE_64]).
  - vm_compute. reflexivity.
  - vm_compute. reflexivity.
Defined.

Lemma magnetic_returns_values_after_construction_witness :
  (resolution (sim_after_ops [OpSet FieldRange FIELDRANGE_8G] (sim_driver 2))
   = Some 3000 \/
   resolution (sim_after_ops [OpSet FieldRange FIELDRANGE_8G] (sim_driver 2))
   = Some 12000) /\
  exists mx my mz,
    @inr exn (Q * Q * Q) ((2 # 1)%Q, (- 2 # 1)%Q, (1 # 1)%Q) = inr (mx, my, mz).
Proof.
  apply (magnetic_returns_values_after_construction LittleEndian
           (sim_sensor 2) 0x0D [OpSet FieldRange FIELDRANGE_8G]
           (sim_driver 2)
           (sim_after_ops [OpSet FieldRange FIELDRANGE_8G] (sim_driver 2))
           (sim_after_magnetic 4
              (sim_after_ops [OpSet FieldRange FIELDRANGE_8G] (sim_driver 2)))
           4).
  - vm_compute. reflexivity.
  - vm_compute. reflexivity.
  - vm_compute. reflexivity.
Defined.
